(** * MP2: AO->MO integral transformation and MP2 correlation energy

    A shallow embedding of [mp2_canonical_slow.py] and
    [mp2_canonical_fast.py], one module per file, and the properties of
    the integral transformation and of the energy sum.

    Conventions of the embedding.
    - Python integers (loop bounds, indices) are [Z]; [range] is Python's.
    - A numpy array is a shape together with a total cell function; reading
      or writing through [getitem]/[setitem] checks the bounds like numpy does
      (negative indices wrap, anything else raises [IndexError]).  The rank
      of an array is fixed by its type.
    - Array elements are scalars of an arbitrary field with decidable
      equality: the arithmetic of the program is read as exact arithmetic,
      rounding and overflow are outside the model.  A float division by
      zero makes the value non-finite (numpy yields inf or nan and goes on),
      which the energy accumulator records as [NonFinite].
    - A function returns [Ok v] or raises: [Raise e].
    - The variable [g2e_ao] of the module, which the einsum functions read,
      is an explicit first argument of these functions.
    - [time.clock()] and [print] are diagnostics and are left out: the
      interpreter is one that has [time.clock].

    Layout: the program and the definitions the statements need come first;
    the lemmas on loops, sums and indexing follow; then the closed forms of
    what each loop nest computes, and the properties of the energy and of
    the transformation. *)

From Stdlib Require Import ZArith List Lia Bool FinFun Field Ring QArith Qcanon.
Import ListNotations.

Local Open Scope Z_scope.

(** ** Scalars *)

Class Scalar : Type := {
  F : Type;
  F0 : F;
  F1 : F;
  Fadd : F -> F -> F;
  Fmul : F -> F -> F;
  Fsub : F -> F -> F;
  Fopp : F -> F;
  Fdiv : F -> F -> F;
  Finv : F -> F;
  Feq_dec : forall x y : F, {x = y} + {x <> y};
  Ffield : field_theory F0 F1 Fadd Fmul Fsub Fopp Fdiv Finv (@eq F)
}.

Declare Scope F_scope.
Delimit Scope F_scope with F.
Infix "+" := Fadd : F_scope.
Infix "*" := Fmul : F_scope.
Infix "-" := Fsub : F_scope.
Infix "/" := Fdiv : F_scope.

(** The rationals in canonical form are the scalars of the concrete runs. *)
#[export] Instance Qc_Scalar : Scalar := {|
  F := Qc;
  F0 := Q2Qc 0;
  F1 := Q2Qc 1;
  Fadd := Qcplus;
  Fmul := Qcmult;
  Fsub := Qcminus;
  Fopp := Qcopp;
  Fdiv := Qcdiv;
  Finv := Qcinv;
  Feq_dec := Qc_eq_dec;
  Ffield := Qcft
|}.

(** ** Exceptions and results *)

(** [IndexError] is what numpy indexing raises and [ValueError] what
    [np.einsum] raises on operands that do not fit.  [ShapeMismatch] and
    [DegenerateOrbitalsError] are the error classes of the written
    specification; no statement of the two source files raises them. *)
Inductive exn : Type :=
  | IndexError
  | ValueError
  | ShapeMismatch
  | DegenerateOrbitalsError.

Inductive result (A : Type) : Type :=
  | Ok (a : A)
  | Raise (e : exn).

Arguments Ok {A} a.
Arguments Raise {A} e.

Definition bind {A B : Type} (m : result A) (k : A -> result B) : result B :=
  match m with
  | Ok a => k a
  | Raise e => Raise e
  end.

Notation "x <- m ;; k" := (bind m (fun x => k))
  (at level 61, m at next level, right associativity).

(** ** Python's [range] and [for] *)

Definition range (lo hi : Z) : list Z :=
  map (fun k => lo + Z.of_nat k) (seq 0 (Z.to_nat (hi - lo))).

(** [for x in xs: body] where the body updates the loop-carried state. *)
Fixpoint for_each {S : Type} (xs : list Z) (body : Z -> S -> result S)
    (s : S) : result S :=
  match xs with
  | [] => Ok s
  | x :: xs' => s' <- body x s ;; for_each xs' body s'
  end.

(** ** numpy arrays *)

(** Index [i] on an axis of length [n]: [0 <= i < n] is taken as it is,
    [-n <= i < 0] counts from the end, anything else is out of bounds. *)
Definition norm_index (n : nat) (i : Z) : option Z :=
  if (0 <=? i) && (i <? Z.of_nat n) then Some i
  else if (- Z.of_nat n <=? i) && (i <? 0) then Some (i + Z.of_nat n)
  else None.

Section Arrays.
Context {SC : Scalar}.

Record ndarray1 : Type := {
  shape1 : nat;
  data1 : Z -> F
}.

Record ndarray2 : Type := {
  shape2 : nat * nat;
  data2 : Z -> Z -> F
}.

Record ndarray4 : Type := {
  shape4 : nat * nat * nat * nat;
  data4 : Z -> Z -> Z -> Z -> F
}.

Definition getitem1 (t : ndarray1) (i : Z) : result F :=
  match norm_index (shape1 t) i with
  | Some i' => Ok (data1 t i')
  | None => Raise IndexError
  end.

Definition getitem2 (t : ndarray2) (i j : Z) : result F :=
  let '(n0, n1) := shape2 t in
  match norm_index n0 i, norm_index n1 j with
  | Some i', Some j' => Ok (data2 t i' j')
  | _, _ => Raise IndexError
  end.

Definition getitem4 (t : ndarray4) (i j k l : Z) : result F :=
  let '(n0, n1, n2, n3) := shape4 t in
  match norm_index n0 i, norm_index n1 j, norm_index n2 k, norm_index n3 l with
  | Some i', Some j', Some k', Some l' => Ok (data4 t i' j' k' l')
  | _, _, _, _ => Raise IndexError
  end.

Definition same_cell (i j k l a b c d : Z) : bool :=
  (a =? i) && (b =? j) && (c =? k) && (d =? l).

Definition setitem4 (t : ndarray4) (i j k l : Z) (v : F) : result ndarray4 :=
  let '(n0, n1, n2, n3) := shape4 t in
  match norm_index n0 i, norm_index n1 j, norm_index n2 k, norm_index n3 l with
  | Some i', Some j', Some k', Some l' =>
      Ok {| shape4 := shape4 t;
            data4 := fun a b c d =>
              if same_cell i' j' k' l' a b c d then v else data4 t a b c d |}
  | _, _, _, _ => Raise IndexError
  end.

(** [np.zeros(shape)] and [t.fill(0)]. *)
Definition zeros4 (sh : nat * nat * nat * nat) : ndarray4 :=
  {| shape4 := sh; data4 := fun _ _ _ _ => F0 |}.

Definition fill0 (t : ndarray4) : ndarray4 := zeros4 (shape4 t).

(** [t[i,j,k,l] += v]: read the cell, add, write it back. *)
Definition iadd4 (t : ndarray4) (i j k l : Z) (v : result F) : result ndarray4 :=
  old <- getitem4 t i j k l ;;
  x <- v ;;
  setitem4 t i j k l (old + x)%F.

End Arrays.

Notation "' pat <- m ;; k" := (bind m (fun pat => k))
  (at level 61, pat pattern, m at next level, right associativity).

(** ** Finite sums *)

Section Sums.
Context {SC : Scalar}.

Fixpoint sum_over (xs : list Z) (f : Z -> F) : F :=
  match xs with
  | [] => F0
  | x :: xs' => (f x + sum_over xs' f)%F
  end.

(** The sum of [f k] for [lo <= k < hi]. *)
Definition sum_range (lo hi : Z) (f : Z -> F) : F :=
  sum_over (range lo hi) f.

(** The sum of [f k] for [0 <= k < n], [n] an axis length. *)
Definition sum_n (n : nat) (f : Z -> F) : F :=
  sum_range 0 (Z.of_nat n) f.

End Sums.

(** [lo <= k < hi], and a cell all of whose indices are below [n]. *)
Definition in_bounds (lo hi k : Z) : bool := (lo <=? k) && (k <? hi).

Definition cell_in_bounds (n : Z) (a b c d : Z) : bool :=
  in_bounds 0 n a && in_bounds 0 n b && in_bounds 0 n c && in_bounds 0 n d.

(** ** [np.einsum] *)

(** numpy is not part of the repository; the five subscript strings the
    program uses are modelled from numpy's definition of [einsum]: an axis
    label shared by two operands must have the same length in both
    (otherwise [ValueError]; numpy's stretching of axes of length one is not
    modelled), labels absent from the output are summed over. *)
Section Einsum.
Context {SC : Scalar}.

(** ['PQRS, Pp, Qq, Rr, Ss->pqrs'] *)
Definition einsum_PQRS_Pp_Qq_Rr_Ss (g : ndarray4) (c : ndarray2)
    : result ndarray4 :=
  let '(n0, n1, n2, n3) := shape4 g in
  let '(m0, m1) := shape2 c in
  if ((n0 =? m0) && (n1 =? m0) && (n2 =? m0) && (n3 =? m0))%nat then
    Ok {| shape4 := (m1, m1, m1, m1);
          data4 := fun p q r s =>
            sum_n m0 (fun P => sum_n m0 (fun Q =>
            sum_n m0 (fun R => sum_n m0 (fun S =>
              (data4 g P Q R S * data2 c P p * data2 c Q q
               * data2 c R r * data2 c S s)%F)))) |}
  else Raise ValueError.

(** ['PQRS, Pp->pQRS'] *)
Definition einsum_PQRS_Pp (g : ndarray4) (c : ndarray2) : result ndarray4 :=
  let '(n0, n1, n2, n3) := shape4 g in
  let '(m0, m1) := shape2 c in
  if (n0 =? m0)%nat then
    Ok {| shape4 := (m1, n1, n2, n3);
          data4 := fun p Q R S =>
            sum_n m0 (fun P => (data4 g P Q R S * data2 c P p)%F) |}
  else Raise ValueError.

(** ['pQRS, Qq->pqRS'] *)
Definition einsum_pQRS_Qq (g : ndarray4) (c : ndarray2) : result ndarray4 :=
  let '(n0, n1, n2, n3) := shape4 g in
  let '(m0, m1) := shape2 c in
  if (n1 =? m0)%nat then
    Ok {| shape4 := (n0, m1, n2, n3);
          data4 := fun p q R S =>
            sum_n m0 (fun Q => (data4 g p Q R S * data2 c Q q)%F) |}
  else Raise ValueError.

(** ['pqRS, Rr->pqrS'] *)
Definition einsum_pqRS_Rr (g : ndarray4) (c : ndarray2) : result ndarray4 :=
  let '(n0, n1, n2, n3) := shape4 g in
  let '(m0, m1) := shape2 c in
  if (n2 =? m0)%nat then
    Ok {| shape4 := (n0, n1, m1, n3);
          data4 := fun p q r S =>
            sum_n m0 (fun R => (data4 g p q R S * data2 c R r)%F) |}
  else Raise ValueError.

(** ['pqrS, Ss->pqrs'] *)
Definition einsum_pqrS_Ss (g : ndarray4) (c : ndarray2) : result ndarray4 :=
  let '(n0, n1, n2, n3) := shape4 g in
  let '(m0, m1) := shape2 c in
  if (n3 =? m0)%nat then
    Ok {| shape4 := (n0, n1, n2, m1);
          data4 := fun p q r s =>
            sum_n m0 (fun S => (data4 g p q r S * data2 c S s)%F) |}
  else Raise ValueError.

End Einsum.

(** ** The energy accumulator *)

Section Energy.
Context {SC : Scalar}.

(** A float that is either a number or has become inf/nan. *)
Inductive xval : Type :=
  | Finite (x : F)
  | NonFinite.

Definition xadd (a b : xval) : xval :=
  match a, b with
  | Finite x, Finite y => Finite (x + y)%F
  | _, _ => NonFinite
  end.

(** [x / y] on numpy floats: a zero divisor gives inf or nan. *)
Definition xdiv (x y : F) : xval :=
  if Feq_dec y F0 then NonFinite else Finite (x / y)%F.

(** Reads of array elements are counted in a ghost counter that is
    threaded along with the value read. *)
Definition read1 (t : ndarray1) (i : Z) (n : nat) : result (F * nat) :=
  x <- getitem1 t i ;; Ok (x, S n).

Definition read4 (t : ndarray4) (i j k l : Z) (n : nat) : result (F * nat) :=
  x <- getitem4 t i j k l ;; Ok (x, S n).

Definition two : F := (F1 + F1)%F.

End Energy.

(** ** mp2_canonical_slow.py *)

Module Slow.
Section Program.
Context {SC : Scalar}.

(** [transform_integrals_slow], lines 60-82. *)
Definition transform_integrals_slow (num_bf : Z) (g2e_ao : ndarray4)
    (coeff_mat : ndarray2) : result ndarray4 :=
  let g2e_mo := zeros4 (shape4 g2e_ao) in
  for_each (range 0 num_bf) (fun p =>
  for_each (range 0 num_bf) (fun q =>
  for_each (range 0 num_bf) (fun r =>
  for_each (range 0 num_bf) (fun s =>
  for_each (range 0 num_bf) (fun mu =>
  for_each (range 0 num_bf) (fun nu =>
  for_each (range 0 num_bf) (fun rho =>
  for_each (range 0 num_bf) (fun sigma g2e_mo =>
    iadd4 g2e_mo p q r s
      (cp <- getitem2 coeff_mat p mu ;;
       cq <- getitem2 coeff_mat q nu ;;
       g <- getitem4 g2e_ao mu nu rho sigma ;;
       cr <- getitem2 coeff_mat r rho ;;
       cs <- getitem2 coeff_mat s sigma ;;
       Ok (cp * cq * g * cr * cs)%F))))))))) g2e_mo.

(** [transform_integrals_einsum], lines 87-93.  The parameter is spelled
    [ge2_ao]; the body names [g2e_ao], which is the variable of the module
    (line 42), passed here as [g2e_ao]. *)
Definition transform_integrals_einsum (g2e_ao : ndarray4)
    (ge2_ao : ndarray4) (coeff_mat : ndarray2) : result ndarray4 :=
  g2e_mo <- einsum_PQRS_Pp_Qq_Rr_Ss g2e_ao coeff_mat ;;
  Ok g2e_mo.

(** [transform_integrals], lines 98-135, one definition per loop nest. *)

(** Lines 103-108. *)
Definition transform_integrals_nest1 (num_bf : Z) (g2e_ao : ndarray4)
    (coeff_mat : ndarray2) (g : ndarray4) : result ndarray4 :=
  for_each (range 0 num_bf) (fun mu =>
  for_each (range 0 num_bf) (fun nu =>
  for_each (range 0 num_bf) (fun rho =>
  for_each (range 0 num_bf) (fun sigma =>
  for_each (range 0 num_bf) (fun s g =>
    iadd4 g mu nu rho s
      (x <- getitem4 g2e_ao mu nu rho sigma ;;
       c <- getitem2 coeff_mat rho s ;;
       Ok (x * c)%F)))))) g.

(** Lines 112-117. *)
Definition transform_integrals_nest2 (num_bf : Z) (g : ndarray4)
    (coeff_mat : ndarray2) (gmo : ndarray4) : result ndarray4 :=
  for_each (range 0 num_bf) (fun mu =>
  for_each (range 0 num_bf) (fun nu =>
  for_each (range 0 num_bf) (fun r =>
  for_each (range 0 num_bf) (fun s =>
  for_each (range 0 num_bf) (fun rho gmo =>
    iadd4 gmo mu nu r s
      (x <- getitem4 g mu nu rho s ;;
       c <- getitem2 coeff_mat rho r ;;
       Ok (x * c)%F)))))) gmo.

(** Lines 120-125. *)
Definition transform_integrals_nest3 (num_bf : Z) (gmo : ndarray4)
    (coeff_mat : ndarray2) (g : ndarray4) : result ndarray4 :=
  for_each (range 0 num_bf) (fun mu =>
  for_each (range 0 num_bf) (fun q =>
  for_each (range 0 num_bf) (fun r =>
  for_each (range 0 num_bf) (fun s =>
  for_each (range 0 num_bf) (fun nu g =>
    iadd4 g mu q r s
      (x <- getitem4 gmo mu nu r s ;;
       c <- getitem2 coeff_mat nu q ;;
       Ok (x * c)%F)))))) g.

(** Lines 128-133. *)
Definition transform_integrals_nest4 (num_bf : Z) (g : ndarray4)
    (coeff_mat : ndarray2) (gmo : ndarray4) : result ndarray4 :=
  for_each (range 0 num_bf) (fun p =>
  for_each (range 0 num_bf) (fun q =>
  for_each (range 0 num_bf) (fun r =>
  for_each (range 0 num_bf) (fun s =>
  for_each (range 0 num_bf) (fun mu gmo =>
    iadd4 gmo p q r s
      (x <- getitem4 g mu q r s ;;
       c <- getitem2 coeff_mat mu p ;;
       Ok (x * c)%F)))))) gmo.

Definition transform_integrals (num_bf : Z) (g2e_ao : ndarray4)
    (coeff_mat : ndarray2) : result ndarray4 :=
  let g := zeros4 (shape4 g2e_ao) in
  g <- transform_integrals_nest1 num_bf g2e_ao coeff_mat g ;;
  let gmo := zeros4 (shape4 g2e_ao) in
  gmo <- transform_integrals_nest2 num_bf g coeff_mat gmo ;;
  let g := fill0 g in
  g <- transform_integrals_nest3 num_bf gmo coeff_mat g ;;
  let gmo := fill0 gmo in
  gmo <- transform_integrals_nest4 num_bf g coeff_mat gmo ;;
  Ok gmo.

(** [compute_mp2_energy], lines 147-168: the loops, with the accumulator
    [E] and the ghost count of element reads as loop-carried state. *)
Definition compute_mp2_energy_run (num_bf nocc : Z) (g2e_mo : ndarray4)
    (orb_e : ndarray1) (ehf : F) : result (xval * nat) :=
  let E := Finite F0 in
  for_each (range 0 nocc) (fun i =>
  for_each (range 0 nocc) (fun j =>
  for_each (range nocc num_bf) (fun a =>
  for_each (range nocc num_bf) (fun b '(E, n) =>
    '(x, n) <- read4 g2e_mo i a j b n ;;
    '(y, n) <- read4 g2e_mo i a j b n ;;
    '(z, n) <- read4 g2e_mo i b j a n ;;
    '(ei, n) <- read1 orb_e i n ;;
    '(ej, n) <- read1 orb_e j n ;;
    '(ea, n) <- read1 orb_e a n ;;
    '(eb, n) <- read1 orb_e b n ;;
    Ok (xadd E (xdiv (x * (two * y - z)) (ei + ej - ea - eb))%F, n)))))
    (E, 0%nat).

Definition compute_mp2_energy (num_bf nocc : Z) (g2e_mo : ndarray4)
    (orb_e : ndarray1) (ehf : F) : result xval :=
  '(E, _) <- compute_mp2_energy_run num_bf nocc g2e_mo orb_e ehf ;;
  Ok E.

End Program.
End Slow.

(** ** mp2_canonical_fast.py *)

Module Fast.
Section Program.
Context {SC : Scalar}.

(** [transform_integrals_einsum], lines 60-69.  Each of the four calls is
    given the variable [g2e_ao] of the module (line 42) and assigns
    [g2e_mo] anew; the parameter [ge2_ao] is not used. *)
Definition transform_integrals_einsum (g2e_ao : ndarray4)
    (ge2_ao : ndarray4) (coeff_mat : ndarray2) : result ndarray4 :=
  g2e_mo <- einsum_PQRS_Pp g2e_ao coeff_mat ;;
  g2e_mo <- einsum_pQRS_Qq g2e_ao coeff_mat ;;
  g2e_mo <- einsum_pqRS_Rr g2e_ao coeff_mat ;;
  g2e_mo <- einsum_pqrS_Ss g2e_ao coeff_mat ;;
  Ok g2e_mo.

(** [compute_mp2_energy], lines 80-102. *)
Definition compute_mp2_energy_run (num_bf nocc : Z) (g2e_mo : ndarray4)
    (orb_e : ndarray1) (ehf : F) : result (xval * nat) :=
  let E := Finite F0 in
  for_each (range 0 nocc) (fun i =>
  for_each (range 0 nocc) (fun j =>
  for_each (range nocc num_bf) (fun a =>
  for_each (range nocc num_bf) (fun b '(E, n) =>
    '(x, n) <- read4 g2e_mo i a j b n ;;
    '(y, n) <- read4 g2e_mo i a j b n ;;
    '(z, n) <- read4 g2e_mo i b j a n ;;
    '(ei, n) <- read1 orb_e i n ;;
    '(ej, n) <- read1 orb_e j n ;;
    '(ea, n) <- read1 orb_e a n ;;
    '(eb, n) <- read1 orb_e b n ;;
    Ok (xadd E (xdiv (x * (two * y - z)) (ei + ej - ea - eb))%F, n)))))
    (E, 0%nat).

Definition compute_mp2_energy (num_bf nocc : Z) (g2e_mo : ndarray4)
    (orb_e : ndarray1) (ehf : F) : result xval :=
  '(E, _) <- compute_mp2_energy_run num_bf nocc g2e_mo orb_e ehf ;;
  Ok E.

End Program.
End Fast.

(** ** Concrete arrays, for running the program *)

Definition qz (z : Z) : Qc := Q2Qc (inject_Z z).

(** A vector, a matrix and a rank-4 array with rational entries, given by
    their integer or rational rows resp. by a cell function. *)
Definition array1_of (xs : list Qc) : ndarray1 :=
  {| shape1 := length xs;
     data1 := fun i => nth (Z.to_nat i) xs (qz 0) |}.

Definition array2_of (rows : list (list Z)) : ndarray2 :=
  {| shape2 := (length rows, length (hd [] rows));
     data2 := fun i j => qz (nth (Z.to_nat j) (nth (Z.to_nat i) rows []) 0) |}.

Definition array4_of (n : nat) (f : Z -> Z -> Z -> Z -> Z) : ndarray4 :=
  {| shape4 := (n, n, n, n);
     data4 := fun i j k l => qz (f i j k l) |}.

(** The cell of a result, as a plain rational, for comparing runs. *)
Definition cell (r : result ndarray4) (i j k l : Z) : option Q :=
  match r with
  | Ok t =>
      match getitem4 t i j k l with
      | Ok v => Some (this v)
      | Raise _ => None
      end
  | Raise _ => None
  end.

(** ** What the specification asks for *)

Section Specification.
Context {SC : Scalar}.

(** The defining contraction
    [g2e_mo[p,q,r,s] = sum_{mu nu rho sigma} C[mu,p] C[nu,q] C[rho,r] C[sigma,s] g2e_ao[mu,nu,rho,sigma]]. *)
Definition contraction (N : nat) (g2e_ao : ndarray4) (C : ndarray2)
    (p q r s : Z) : F :=
  sum_n N (fun mu => sum_n N (fun nu =>
  sum_n N (fun rho => sum_n N (fun sigma =>
    (data2 C mu p * data2 C nu q * data2 C rho r * data2 C sigma s
     * data4 g2e_ao mu nu rho sigma)%F)))).

(** First quarter transformation of the factored strategy:
    [g1[mu,nu,rho,s] = sum_sigma g2e_ao[mu,nu,rho,sigma] * C[sigma,s]]. *)
Definition first_quarter (N : nat) (g2e_ao : ndarray4) (C : ndarray2)
    (mu nu rho s : Z) : F :=
  sum_n N (fun sigma => (data4 g2e_ao mu nu rho sigma * data2 C sigma s)%F).

(** One term of the MP2 sum. *)
Definition mp2_denominator (orb_e : ndarray1) (i j a b : Z) : F :=
  (data1 orb_e i + data1 orb_e j - data1 orb_e a - data1 orb_e b)%F.

Definition mp2_term (g2e_mo : ndarray4) (orb_e : ndarray1) (i j a b : Z) : F :=
  (data4 g2e_mo i a j b
   * (two * data4 g2e_mo i a j b - data4 g2e_mo i b j a)
   / mp2_denominator orb_e i j a b)%F.

(** [E = sum_{i,j in occ} sum_{a,b in virt} term i j a b]. *)
Definition mp2_sum (N nocc : Z) (g2e_mo : ndarray4) (orb_e : ndarray1) : F :=
  sum_range 0 nocc (fun i => sum_range 0 nocc (fun j =>
  sum_range nocc N (fun a => sum_range nocc N (fun b =>
    mp2_term g2e_mo orb_e i j a b)))).

(** The index quadruples of the MP2 sum, occupied x occupied x virtual x
    virtual, in the order of the loops. *)
Definition mp2_quads (N nocc : Z) : list (Z * Z * Z * Z) :=
  flat_map (fun i => flat_map (fun j => flat_map (fun a =>
    map (fun b => (i, j, a, b)) (range nocc N))
    (range nocc N)) (range 0 nocc)) (range 0 nocc).

Fixpoint sum_quads (qs : list (Z * Z * Z * Z)) (f : Z -> Z -> Z -> Z -> F) : F :=
  match qs with
  | [] => F0
  | (i, j, a, b) :: qs' => (f i j a b + sum_quads qs' f)%F
  end.

(** The identity matrix [np.eye(N)]. *)
Definition eye (N : nat) : ndarray2 :=
  {| shape2 := (N, N);
     data2 := fun i j => if i =? j then F1 else F0 |}.

End Specification.

(** ** Accumulating loops *)

Section Accumulation.
Context {SC : Scalar}.

(** [m] adds [d a b c d'] to every cell [(a,b,c,d')] of an array of shape
    [sh], and returns. *)
Definition accumulates (sh : nat * nat * nat * nat)
    (m : ndarray4 -> result ndarray4) (d : Z -> Z -> Z -> Z -> F) : Prop :=
  forall t, shape4 t = sh ->
  exists t', m t = Ok t' /\ shape4 t' = sh /\
    forall a b c d', data4 t' a b c d' = (data4 t a b c d' + d a b c d')%F.

End Accumulation.

(** ** What the loops compute, cell by cell *)

Section Computed.
Context {SC : Scalar}.

(** [transform_integrals_slow]: the matrix is read as [coeff_mat[p, mu]]. *)
Definition naive_value (num_bf : Z) (g2e_ao : ndarray4) (coeff_mat : ndarray2)
    (p q r s : Z) : F :=
  sum_range 0 num_bf (fun mu => sum_range 0 num_bf (fun nu =>
  sum_range 0 num_bf (fun rho => sum_range 0 num_bf (fun sigma =>
    (data2 coeff_mat p mu * data2 coeff_mat q nu
     * data4 g2e_ao mu nu rho sigma
     * data2 coeff_mat r rho * data2 coeff_mat s sigma)%F)))).

(** [transform_integrals], after the first loop nest: the matrix is read
    as [coeff_mat[rho, s]]. *)
Definition nest1_value (num_bf : Z) (g2e_ao : ndarray4) (coeff_mat : ndarray2)
    (mu nu rho s : Z) : F :=
  sum_range 0 num_bf (fun sigma =>
    (data4 g2e_ao mu nu rho sigma * data2 coeff_mat rho s)%F).

(** [transform_integrals], at the end. *)
Definition factored_value (num_bf : Z) (g2e_ao : ndarray4)
    (coeff_mat : ndarray2) (p q r s : Z) : F :=
  sum_range 0 num_bf (fun mu =>
    (sum_range 0 num_bf (fun nu =>
      (sum_range 0 num_bf (fun rho =>
        (nest1_value num_bf g2e_ao coeff_mat mu nu rho s
         * data2 coeff_mat rho r)%F)
       * data2 coeff_mat nu q)%F)
     * data2 coeff_mat mu p)%F).

(** [transform_integrals_einsum] of the fast file: only the last axis of
    the module's array is transformed. *)
Definition last_axis_value (N : nat) (g2e_ao : ndarray4) (coeff_mat : ndarray2)
    (p q r s : Z) : F :=
  sum_n N (fun S => (data4 g2e_ao p q r S * data2 coeff_mat S s)%F).

(** [C.T] *)
Definition transpose (c : ndarray2) : ndarray2 :=
  {| shape2 := (snd (shape2 c), fst (shape2 c));
     data2 := fun i j => data2 c j i |}.

End Computed.

(** ** What the energy loops compute *)

Section ComputedEnergy.
Context {SC : Scalar}.

Fixpoint xsum_over (xs : list Z) (f : Z -> xval) : xval :=
  match xs with
  | [] => Finite F0
  | x :: xs' => xadd (f x) (xsum_over xs' f)
  end.

Definition xsum_range (lo hi : Z) (f : Z -> xval) : xval :=
  xsum_over (range lo hi) f.

(** The term the loop body adds to [E]. *)
Definition mp2_xterm (g2e_mo : ndarray4) (orb_e : ndarray1)
    (i j a b : Z) : xval :=
  xdiv (data4 g2e_mo i a j b
        * (two * data4 g2e_mo i a j b - data4 g2e_mo i b j a))%F
       (data1 orb_e i + data1 orb_e j - data1 orb_e a - data1 orb_e b)%F.

Definition mp2_xsum (num_bf nocc : Z) (g2e_mo : ndarray4)
    (orb_e : ndarray1) : xval :=
  xsum_range 0 nocc (fun i => xsum_range 0 nocc (fun j =>
  xsum_range nocc num_bf (fun a => xsum_range nocc num_bf (fun b =>
    mp2_xterm g2e_mo orb_e i j a b)))).

(** [m] adds [v] to the accumulator, reads [k] array elements, and
    returns. *)
Definition adds (m : xval * nat -> result (xval * nat)) (v : xval)
    (k : nat) : Prop :=
  forall E n, m (E, n) = Ok (xadd E v, (k + n)%nat).

(** The number of times the body of the energy loops runs. *)
Definition mp2_iterations (num_bf nocc : Z) : nat :=
  (Z.to_nat nocc * (Z.to_nat nocc
   * (Z.to_nat (num_bf - nocc) * Z.to_nat (num_bf - nocc))))%nat.

End ComputedEnergy.

(** ** Inputs of the concrete runs *)

(** Two basis functions; a coefficient matrix that is not symmetric. *)
Definition coeff_ex : ndarray2 := array2_of [[1; 1]; [0; 1]].

(** [g2e_ao[i,j,k,l] = 1 + i + 2j + 4k + 8l]: sixteen different entries. *)
Definition g2e_ex : ndarray4 :=
  array4_of 2 (fun i j k l => 1 + i + 2 * j + 4 * k + 8 * l).

(** Another array of the same shape, [g2e_ao[i,j,k,l] = 7]. *)
Definition g2e_other : ndarray4 := array4_of 2 (fun _ _ _ _ => 7).

(** Orbital energies [-1, 1]: one occupied and one virtual orbital. *)
Definition orb_ex : ndarray1 := array1_of [qz (-1); qz 1].

(** Orbital energies [0, 10^-30]: the one denominator is [-2 * 10^-30]. *)
Definition orb_near : ndarray1 := array1_of [qz 0; Q2Qc (1 # 10 ^ 30)].

(** Orbital energies [1, 1]: the one denominator is zero. *)
Definition orb_degenerate : ndarray1 := array1_of [qz 1; qz 1].

(** The outcome of an energy run, as a plain rational: [Some (Some E)] for a
    finite energy, [Some None] for inf/nan, [None] for an exception. *)
Definition energy (r : result xval) : option (option Q) :=
  match r with
  | Ok (Finite x) => Some (Some (this x))
  | Ok NonFinite => Some None
  | Raise _ => None
  end.

(** Arrays with three resp. one basis function per axis, to be paired with
    the 2 x 2 matrix [coeff_ex]. *)
Definition g2e_wide : ndarray4 :=
  array4_of 3 (fun i j k l => 1 + i + 2 * j + 4 * k + 8 * l).

Definition g2e_narrow : ndarray4 := array4_of 1 (fun _ _ _ _ => 1).

(** ** The scripts *)

(** The statements at module level that call the functions, with what pyscf
    supplies ([num_bf], [g2e_ao], [coeff_mat], [orb_e], [ehf]) as
    parameters. *)
Section Scripts.
Context {SC : Scalar}.



End Scripts.

(** ** Arrays built from arrays *)

Section ArrayOperations.
Context {SC : Scalar}.

(** [c * g] and the N x N x N x N array with the given cells. *)
Definition scale4 (c : F) (g : ndarray4) : ndarray4 :=
  {| shape4 := shape4 g;
     data4 := fun i j k l => (c * data4 g i j k l)%F |}.


(** [c * E] on an accumulated energy. *)
Definition xscale (c : F) (v : xval) : xval :=
  match v with
  | Finite x => Finite (c * x)%F
  | NonFinite => NonFinite
  end.

(** The factored loops' value with the sums written side by side. *)
Definition factored_flat (num_bf : Z) (g2e_ao : ndarray4) (coeff_mat : ndarray2)
    (p q r s : Z) : F :=
  sum_range 0 num_bf (fun mu => sum_range 0 num_bf (fun nu =>
  sum_range 0 num_bf (fun rho => sum_range 0 num_bf (fun sigma =>
    (data2 coeff_mat mu p * data2 coeff_mat nu q
     * data2 coeff_mat rho r * data2 coeff_mat rho s
     * data4 g2e_ao mu nu rho sigma)%F)))).

End ArrayOperations.

(** A symmetric coefficient matrix, and an array with
    [g[i,j,k,l] = g[j,i,l,k]]. *)
Definition coeff_sym : ndarray2 := array2_of [[1; 2]; [2; 3]].

Definition g2e_sym : ndarray4 :=
  array4_of 2 (fun i j k l => 1 + i + j + 3 * (k + l)).

(** * Properties *)

(** ** [range] *)

Lemma in_range (lo hi x : Z) : In x (range lo hi) <-> lo <= x < hi.
Proof.
  unfold range. rewrite in_map_iff. split.
  - intros [k [Hk Hin]]. apply in_seq in Hin. lia.
  - intros H. exists (Z.to_nat (x - lo)). split; [lia|].
    apply in_seq. lia.
Qed.

Lemma NoDup_range (lo hi : Z) : NoDup (range lo hi).
Proof.
  unfold range. apply Injective_map_NoDup.
  - intros a b Hab. lia.
  - apply seq_NoDup.
Qed.

Lemma length_range (lo hi : Z) : length (range lo hi) = Z.to_nat (hi - lo).
Proof. unfold range. now rewrite length_map, length_seq. Qed.

Lemma range_empty (lo hi : Z) : hi <= lo -> range lo hi = [].
Proof.
  intros H. unfold range. replace (Z.to_nat (hi - lo)) with 0%nat by lia.
  reflexivity.
Qed.

(** ** Loops *)

Lemma for_each_skip {S : Type} (xs : list Z) (body : Z -> S -> result S) :
  (forall x s, In x xs -> body x s = Ok s) ->
  forall s, for_each xs body s = Ok s.
Proof.
  induction xs as [|x xs IH]; intros Hb s; simpl; [reflexivity|].
  rewrite Hb by (now left). simpl. apply IH.
  intros y s' Hy. apply Hb. now right.
Qed.

(** A loop raises only what one of its iterations raises. *)
Lemma for_each_raises {S : Type} (P : exn -> Prop) (xs : list Z)
    (body : Z -> S -> result S) :
  (forall x s e, In x xs -> body x s = Raise e -> P e) ->
  forall s e, for_each xs body s = Raise e -> P e.
Proof.
  induction xs as [|x xs IH]; intros Hb s e; simpl; [discriminate|].
  destruct (body x s) as [s'|e'] eqn:Hx; simpl.
  - apply IH. intros y s0 e0 Hy. apply Hb. now right.
  - intros H. injection H as ->. eapply Hb; [now left|exact Hx].
Qed.

(** A loop that returns has run every iteration to its end. *)
Lemma for_each_ok_inv {S : Type} (xs : list Z) (body : Z -> S -> result S) :
  forall s s', for_each xs body s = Ok s' ->
  forall x, In x xs -> exists s1 s2, body x s1 = Ok s2.
Proof.
  induction xs as [|x xs IH]; intros s s' H y Hy; [destruct Hy|].
  simpl in H. destruct (body x s) as [s1|e] eqn:Hx; simpl in H; [|discriminate].
  destruct Hy as [->|Hy].
  - now exists s, s1.
  - eapply IH; eauto.
Qed.

(** ** Indexing *)

Lemma norm_index_in (n : nat) (i : Z) :
  0 <= i < Z.of_nat n -> norm_index n i = Some i.
Proof.
  intros H. unfold norm_index.
  destruct (0 <=? i) eqn:E1; [|lia].
  destruct (i <? Z.of_nat n) eqn:E2; [reflexivity|lia].
Qed.

Lemma norm_index_above (n : nat) (i : Z) :
  Z.of_nat n <= i -> norm_index n i = None.
Proof.
  intros H. unfold norm_index.
  destruct (0 <=? i) eqn:E1; destruct (i <? Z.of_nat n) eqn:E2;
    destruct (- Z.of_nat n <=? i) eqn:E3; destruct (i <? 0) eqn:E4;
    simpl; try reflexivity; lia.
Qed.

Section IndexingFacts.
Context {SC : Scalar}.

Lemma getitem1_in (t : ndarray1) (i : Z) :
  0 <= i < Z.of_nat (shape1 t) -> getitem1 t i = Ok (data1 t i).
Proof. intros H. unfold getitem1. now rewrite norm_index_in. Qed.

Lemma getitem2_in (t : ndarray2) (n0 n1 : nat) (i j : Z) :
  shape2 t = (n0, n1) ->
  0 <= i < Z.of_nat n0 -> 0 <= j < Z.of_nat n1 ->
  getitem2 t i j = Ok (data2 t i j).
Proof.
  intros Hs Hi Hj. unfold getitem2. rewrite Hs.
  now rewrite !norm_index_in.
Qed.

Lemma getitem4_in (t : ndarray4) (n0 n1 n2 n3 : nat) (i j k l : Z) :
  shape4 t = (n0, n1, n2, n3) ->
  0 <= i < Z.of_nat n0 -> 0 <= j < Z.of_nat n1 ->
  0 <= k < Z.of_nat n2 -> 0 <= l < Z.of_nat n3 ->
  getitem4 t i j k l = Ok (data4 t i j k l).
Proof.
  intros Hs Hi Hj Hk Hl. unfold getitem4. rewrite Hs.
  now rewrite !norm_index_in.
Qed.

Lemma getitem1_raises (t : ndarray1) (i : Z) (e : exn) :
  getitem1 t i = Raise e -> e = IndexError.
Proof.
  unfold getitem1. destruct (norm_index _ _); congruence.
Qed.

Lemma getitem2_raises (t : ndarray2) (i j : Z) (e : exn) :
  getitem2 t i j = Raise e -> e = IndexError.
Proof.
  unfold getitem2. destruct (shape2 t) as [n0 n1].
  destruct (norm_index n0 i), (norm_index n1 j); congruence.
Qed.

Lemma getitem4_raises (t : ndarray4) (i j k l : Z) (e : exn) :
  getitem4 t i j k l = Raise e -> e = IndexError.
Proof.
  unfold getitem4. destruct (shape4 t) as [[[n0 n1] n2] n3].
  destruct (norm_index n0 i), (norm_index n1 j), (norm_index n2 k),
    (norm_index n3 l); congruence.
Qed.

Lemma setitem4_raises (t : ndarray4) (i j k l : Z) (v : F) (e : exn) :
  setitem4 t i j k l v = Raise e -> e = IndexError.
Proof.
  unfold setitem4. destruct (shape4 t) as [[[n0 n1] n2] n3].
  destruct (norm_index n0 i), (norm_index n1 j), (norm_index n2 k),
    (norm_index n3 l); congruence.
Qed.

Lemma getitem2_ok_inv (t : ndarray2) (n0 n1 : nat) (i j : Z) (v : F) :
  shape2 t = (n0, n1) -> 0 <= i -> 0 <= j ->
  getitem2 t i j = Ok v -> i < Z.of_nat n0 /\ j < Z.of_nat n1.
Proof.
  intros Hs Hi Hj. unfold getitem2. rewrite Hs.
  destruct (Z_lt_le_dec i (Z.of_nat n0)) as [Hi'|Hi'].
  - destruct (Z_lt_le_dec j (Z.of_nat n1)) as [Hj'|Hj']; [auto|].
    rewrite (norm_index_above n1 j Hj').
    destruct (norm_index n0 i); discriminate.
  - rewrite (norm_index_above n0 i Hi'). discriminate.
Qed.

Lemma getitem4_ok_inv (t : ndarray4) (n0 n1 n2 n3 : nat) (i j k l : Z) (v : F) :
  shape4 t = (n0, n1, n2, n3) -> 0 <= i -> 0 <= j -> 0 <= k -> 0 <= l ->
  getitem4 t i j k l = Ok v ->
  i < Z.of_nat n0 /\ j < Z.of_nat n1 /\ k < Z.of_nat n2 /\ l < Z.of_nat n3.
Proof.
  intros Hs Hi Hj Hk Hl. unfold getitem4. rewrite Hs.
  destruct (Z_lt_le_dec i (Z.of_nat n0)) as [Hi'|Hi'];
    [|rewrite (norm_index_above n0 i Hi'); discriminate].
  destruct (Z_lt_le_dec j (Z.of_nat n1)) as [Hj'|Hj'];
    [|rewrite (norm_index_above n1 j Hj');
      destruct (norm_index n0 i); discriminate].
  destruct (Z_lt_le_dec k (Z.of_nat n2)) as [Hk'|Hk'];
    [|rewrite (norm_index_above n2 k Hk');
      destruct (norm_index n0 i), (norm_index n1 j); discriminate].
  destruct (Z_lt_le_dec l (Z.of_nat n3)) as [Hl'|Hl'];
    [auto|rewrite (norm_index_above n3 l Hl');
      destruct (norm_index n0 i), (norm_index n1 j), (norm_index n2 k);
      discriminate].
Qed.

End IndexingFacts.

(** ** Sums *)

Section SumFacts.
Context {SC : Scalar}.
Add Field scalar_field : Ffield.

Local Open Scope F_scope.

Lemma sum_over_ext (xs : list Z) (f g : Z -> F) :
  (forall x, In x xs -> f x = g x) -> sum_over xs f = sum_over xs g.
Proof.
  induction xs as [|x xs IH]; intros H; simpl; [reflexivity|].
  rewrite H by (now left). rewrite IH; [reflexivity|].
  intros y Hy. apply H. now right.
Qed.

Lemma sum_over_zero (xs : list Z) : sum_over xs (fun _ => F0) = F0.
Proof. induction xs as [|x xs IH]; simpl; [reflexivity|]. rewrite IH. ring. Qed.

Lemma sum_over_add (xs : list Z) (f g : Z -> F) :
  sum_over xs (fun x => f x + g x) = sum_over xs f + sum_over xs g.
Proof. induction xs as [|x xs IH]; simpl; [ring|]. rewrite IH. ring. Qed.

Lemma sum_over_scale_r (xs : list Z) (f : Z -> F) (c : F) :
  sum_over xs (fun x => f x * c) = sum_over xs f * c.
Proof. induction xs as [|x xs IH]; simpl; [ring|]. rewrite IH. ring. Qed.

Lemma sum_over_scale_l (xs : list Z) (f : Z -> F) (c : F) :
  sum_over xs (fun x => c * f x) = c * sum_over xs f.
Proof. induction xs as [|x xs IH]; simpl; [ring|]. rewrite IH. ring. Qed.

Lemma sum_over_swap (xs ys : list Z) (f : Z -> Z -> F) :
  sum_over xs (fun x => sum_over ys (fun y => f x y))
  = sum_over ys (fun y => sum_over xs (fun x => f x y)).
Proof.
  induction xs as [|x xs IH]; simpl.
  - now rewrite sum_over_zero.
  - rewrite IH. now rewrite <- sum_over_add.
Qed.

Lemma sum_range_ext (lo hi : Z) (f g : Z -> F) :
  (forall x, (lo <= x < hi)%Z -> f x = g x) ->
  sum_range lo hi f = sum_range lo hi g.
Proof.
  intros H. apply sum_over_ext. intros x Hx. apply H. now apply in_range.
Qed.

(** A condition that does not depend on the summation index. *)
Lemma sum_over_if (xs : list Z) (c : bool) (f : Z -> F) :
  sum_over xs (fun x => if c then f x else F0)
  = if c then sum_over xs f else F0.
Proof. destruct c; [reflexivity|apply sum_over_zero]. Qed.

(** A sum that selects one index. *)
Lemma sum_over_select (xs : list Z) (c : bool) (k : Z) (f : Z -> F) :
  NoDup xs ->
  sum_over xs (fun x => if c && (k =? x)%Z then f x else F0)
  = if c && existsb (Z.eqb k) xs then f k else F0.
Proof.
  destruct c; simpl; [|intros _; apply sum_over_zero].
  induction xs as [|x xs IH]; intros Hnd; simpl; [reflexivity|].
  inversion Hnd as [|? ? Hx Hnd']; subst.
  destruct (k =? x)%Z eqn:E; simpl.
  - apply Z.eqb_eq in E. subst x.
    rewrite (sum_over_ext xs _ (fun _ => F0)); [rewrite sum_over_zero; ring|].
    intros y Hy. destruct (k =? y)%Z eqn:E'; [|reflexivity].
    apply Z.eqb_eq in E'. subst y. contradiction.
  - rewrite IH by assumption. ring.
Qed.

Lemma existsb_range (lo hi k : Z) :
  existsb (Z.eqb k) (range lo hi) = ((lo <=? k)%Z && (k <? hi)%Z).
Proof.
  destruct (existsb (Z.eqb k) (range lo hi)) eqn:E.
  - apply existsb_exists in E. destruct E as [x [Hx Hk]].
    apply Z.eqb_eq in Hk. subst x. apply in_range in Hx.
    symmetry. apply andb_true_iff. split; [apply Z.leb_le|apply Z.ltb_lt]; lia.
  - symmetry. apply not_true_is_false. intros H.
    apply andb_true_iff in H. destruct H as [H1 H2].
    apply Z.leb_le in H1. apply Z.ltb_lt in H2.
    assert (In k (range lo hi)) as Hin by (apply in_range; lia).
    assert (existsb (Z.eqb k) (range lo hi) = true) as Hex.
    { apply existsb_exists. exists k. split; [assumption|apply Z.eqb_refl]. }
    congruence.
Qed.

Lemma sum_range_select (lo hi : Z) (c : bool) (k : Z) (f : Z -> F) :
  sum_range lo hi (fun x => if c && (k =? x)%Z then f x else F0)
  = if c && in_bounds lo hi k then f k else F0.
Proof.
  unfold sum_range. rewrite sum_over_select by apply NoDup_range.
  now rewrite existsb_range.
Qed.

(** Four nested loops that each visit one cell: the sum over all of them of
    what is added to the cell [(a,b,c,d)]. *)
Lemma sum_range_cell (n : Z) (a b c d : Z) (X : Z -> Z -> Z -> Z -> F) :
  sum_range 0 n (fun p => sum_range 0 n (fun q =>
  sum_range 0 n (fun r => sum_range 0 n (fun s =>
    if same_cell p q r s a b c d then X p q r s else F0))))
  = if cell_in_bounds n a b c d then X a b c d else F0.
Proof.
  unfold same_cell, cell_in_bounds.
  transitivity (sum_range 0 n (fun p => sum_range 0 n (fun q =>
    sum_range 0 n (fun r =>
      if (a =? p)%Z && (b =? q)%Z && (c =? r)%Z && in_bounds 0 n d
      then X p q r d else F0)))).
  { apply sum_range_ext; intros p _. apply sum_range_ext; intros q _.
    apply sum_range_ext; intros r _. apply sum_range_select. }
  transitivity (sum_range 0 n (fun p => sum_range 0 n (fun q =>
      if (a =? p)%Z && (b =? q)%Z && (in_bounds 0 n c && in_bounds 0 n d)
      then X p q c d else F0))).
  { apply sum_range_ext; intros p _. apply sum_range_ext; intros q _.
    rewrite (sum_range_ext _ _ _ (fun r =>
      if ((a =? p)%Z && (b =? q)%Z && in_bounds 0 n d) && (c =? r)%Z
      then X p q r d else F0)).
    - rewrite sum_range_select.
      destruct (a =? p)%Z, (b =? q)%Z, (in_bounds 0 n c), (in_bounds 0 n d);
        reflexivity.
    - intros r _.
      destruct (a =? p)%Z, (b =? q)%Z, (c =? r)%Z, (in_bounds 0 n d);
        reflexivity. }
  transitivity (sum_range 0 n (fun p =>
      if (a =? p)%Z && (in_bounds 0 n b && in_bounds 0 n c && in_bounds 0 n d)
      then X p b c d else F0)).
  { apply sum_range_ext; intros p _.
    rewrite (sum_range_ext _ _ _ (fun q =>
      if ((a =? p)%Z && (in_bounds 0 n c && in_bounds 0 n d)) && (b =? q)%Z
      then X p q c d else F0)).
    - rewrite sum_range_select.
      destruct (a =? p)%Z, (in_bounds 0 n b), (in_bounds 0 n c),
        (in_bounds 0 n d); reflexivity.
    - intros q _.
      destruct (a =? p)%Z, (b =? q)%Z, (in_bounds 0 n c), (in_bounds 0 n d);
        reflexivity. }
  rewrite (sum_range_ext _ _ _ (fun p =>
      if (in_bounds 0 n b && in_bounds 0 n c && in_bounds 0 n d) && (a =? p)%Z
      then X p b c d else F0)).
  - rewrite sum_range_select.
    destruct (in_bounds 0 n a), (in_bounds 0 n b), (in_bounds 0 n c),
      (in_bounds 0 n d); reflexivity.
  - intros p _.
    destruct (a =? p)%Z, (in_bounds 0 n b), (in_bounds 0 n c),
      (in_bounds 0 n d); reflexivity.
Qed.

End SumFacts.

(** ** Loops that accumulate into an array *)

Section AccumulationFacts.
Context {SC : Scalar}.
Add Field scalar_field_acc : Ffield.

Local Open Scope F_scope.

Lemma accumulates_ext (sh : nat * nat * nat * nat)
    (m : ndarray4 -> result ndarray4) (d1 d2 : Z -> Z -> Z -> Z -> F) :
  (forall a b c d, d1 a b c d = d2 a b c d) ->
  accumulates sh m d1 -> accumulates sh m d2.
Proof.
  intros He H t Ht. destruct (H t Ht) as [t' [H1 [H2 H3]]].
  exists t'. repeat split; try assumption.
  intros a b c d. rewrite H3. now rewrite He.
Qed.

Lemma for_each_accumulates (sh : nat * nat * nat * nat) (xs : list Z)
    (body : Z -> ndarray4 -> result ndarray4)
    (d : Z -> Z -> Z -> Z -> Z -> F) :
  (forall x, In x xs -> accumulates sh (body x) (d x)) ->
  accumulates sh (for_each xs body)
    (fun a b c d' => sum_over xs (fun x => d x a b c d')).
Proof.
  induction xs as [|x xs IH]; intros Hb t Ht; simpl.
  - exists t. repeat split; try assumption. intros. ring.
  - destruct (Hb x (or_introl eq_refl) t Ht) as [t1 [H1 [H2 H3]]].
    rewrite H1. simpl.
    destruct (IH (fun y Hy => Hb y (or_intror Hy)) t1 H2) as [t2 [H4 [H5 H6]]].
    exists t2. repeat split; try assumption.
    intros a b c d'. rewrite H6, H3. ring.
Qed.

Lemma for_range_accumulates (sh : nat * nat * nat * nat) (lo hi : Z)
    (body : Z -> ndarray4 -> result ndarray4)
    (d : Z -> Z -> Z -> Z -> Z -> F) :
  (forall x, (lo <= x < hi)%Z -> accumulates sh (body x) (d x)) ->
  accumulates sh (for_each (range lo hi) body)
    (fun a b c d' => sum_range lo hi (fun x => d x a b c d')).
Proof.
  intros H. apply for_each_accumulates. intros x Hx. apply H.
  now apply in_range.
Qed.

Lemma same_cell_true (i j k l a b c d : Z) :
  same_cell i j k l a b c d = true -> a = i /\ b = j /\ c = k /\ d = l.
Proof.
  unfold same_cell. rewrite !andb_true_iff, !Z.eqb_eq. tauto.
Qed.

Lemma iadd4_accumulates (n0 n1 n2 n3 : nat) (i j k l : Z) (x : F) :
  (0 <= i < Z.of_nat n0)%Z -> (0 <= j < Z.of_nat n1)%Z ->
  (0 <= k < Z.of_nat n2)%Z -> (0 <= l < Z.of_nat n3)%Z ->
  accumulates (n0, n1, n2, n3) (fun t => iadd4 t i j k l (Ok x))
    (fun a b c d => if same_cell i j k l a b c d then x else F0).
Proof.
  intros Hi Hj Hk Hl t Ht. unfold iadd4.
  rewrite (getitem4_in t n0 n1 n2 n3 i j k l Ht Hi Hj Hk Hl). simpl.
  unfold setitem4. rewrite Ht. rewrite !norm_index_in by assumption.
  eexists. split; [reflexivity|]. split; [reflexivity|].
  intros a b c d. simpl.
  destruct (same_cell i j k l a b c d) eqn:E.
  - apply same_cell_true in E. destruct E as [-> [-> [-> ->]]]. reflexivity.
  - ring.
Qed.

End AccumulationFacts.

(** ** The naive loop, [transform_integrals_slow] *)

Section NaiveLoop.
Context {SC : Scalar}.
Add Field scalar_field_naive : Ffield.

Local Open Scope F_scope.

Lemma sum_range_if (lo hi : Z) (c : bool) (f : Z -> F) :
  sum_range lo hi (fun x => if c then f x else F0)
  = if c then sum_range lo hi f else F0.
Proof. apply sum_over_if. Qed.

(** The eight nested loops add to each cell what their iterations add. *)
Lemma transform_integrals_slow_accumulates (num_bf : Z) (g2e_ao : ndarray4)
    (coeff_mat : ndarray2) (n0 n1 n2 n3 m0 m1 : nat) :
  shape4 g2e_ao = (n0, n1, n2, n3) -> shape2 coeff_mat = (m0, m1) ->
  (num_bf <= Z.of_nat n0)%Z -> (num_bf <= Z.of_nat n1)%Z ->
  (num_bf <= Z.of_nat n2)%Z -> (num_bf <= Z.of_nat n3)%Z ->
  (num_bf <= Z.of_nat m0)%Z -> (num_bf <= Z.of_nat m1)%Z ->
  accumulates (n0, n1, n2, n3)
    (for_each (range 0 num_bf) (fun p =>
     for_each (range 0 num_bf) (fun q =>
     for_each (range 0 num_bf) (fun r =>
     for_each (range 0 num_bf) (fun s =>
     for_each (range 0 num_bf) (fun mu =>
     for_each (range 0 num_bf) (fun nu =>
     for_each (range 0 num_bf) (fun rho =>
     for_each (range 0 num_bf) (fun sigma g2e_mo =>
       iadd4 g2e_mo p q r s
         (cp <- getitem2 coeff_mat p mu ;;
          cq <- getitem2 coeff_mat q nu ;;
          g <- getitem4 g2e_ao mu nu rho sigma ;;
          cr <- getitem2 coeff_mat r rho ;;
          cs <- getitem2 coeff_mat s sigma ;;
          Ok (cp * cq * g * cr * cs)))))))))))
    (fun a b c d =>
     sum_range 0 num_bf (fun p => sum_range 0 num_bf (fun q =>
     sum_range 0 num_bf (fun r => sum_range 0 num_bf (fun s =>
     sum_range 0 num_bf (fun mu => sum_range 0 num_bf (fun nu =>
     sum_range 0 num_bf (fun rho => sum_range 0 num_bf (fun sigma =>
       if same_cell p q r s a b c d
       then data2 coeff_mat p mu * data2 coeff_mat q nu
            * data4 g2e_ao mu nu rho sigma
            * data2 coeff_mat r rho * data2 coeff_mat s sigma
       else F0))))))))).
Proof.
  intros Hg Hc H0 H1 H2 H3 H4 H5.
  apply for_range_accumulates; intros p Hp.
  apply for_range_accumulates; intros q Hq.
  apply for_range_accumulates; intros r Hr.
  apply for_range_accumulates; intros s Hs.
  apply for_range_accumulates; intros mu Hmu.
  apply for_range_accumulates; intros nu Hnu.
  apply for_range_accumulates; intros rho Hrho.
  apply for_range_accumulates; intros sigma Hsigma.
  rewrite (getitem2_in coeff_mat m0 m1 p mu Hc) by lia.
  rewrite (getitem2_in coeff_mat m0 m1 q nu Hc) by lia.
  rewrite (getitem4_in g2e_ao n0 n1 n2 n3 mu nu rho sigma Hg) by lia.
  rewrite (getitem2_in coeff_mat m0 m1 r rho Hc) by lia.
  rewrite (getitem2_in coeff_mat m0 m1 s sigma Hc) by lia.
  simpl bind.
  apply iadd4_accumulates; lia.
Qed.

(** What [transform_integrals_slow] returns: the coefficient matrix is
    indexed [coeff_mat[p, mu]], MO index first. *)
Lemma transform_integrals_slow_result (num_bf : Z) (g2e_ao : ndarray4)
    (coeff_mat : ndarray2) (n0 n1 n2 n3 m0 m1 : nat) :
  shape4 g2e_ao = (n0, n1, n2, n3) -> shape2 coeff_mat = (m0, m1) ->
  (num_bf <= Z.of_nat n0)%Z -> (num_bf <= Z.of_nat n1)%Z ->
  (num_bf <= Z.of_nat n2)%Z -> (num_bf <= Z.of_nat n3)%Z ->
  (num_bf <= Z.of_nat m0)%Z -> (num_bf <= Z.of_nat m1)%Z ->
  exists g2e_mo,
    Slow.transform_integrals_slow num_bf g2e_ao coeff_mat = Ok g2e_mo /\
    shape4 g2e_mo = shape4 g2e_ao /\
    forall p q r s, data4 g2e_mo p q r s =
      if cell_in_bounds num_bf p q r s then
        sum_range 0 num_bf (fun mu => sum_range 0 num_bf (fun nu =>
        sum_range 0 num_bf (fun rho => sum_range 0 num_bf (fun sigma =>
          data2 coeff_mat p mu * data2 coeff_mat q nu
          * data4 g2e_ao mu nu rho sigma
          * data2 coeff_mat r rho * data2 coeff_mat s sigma))))
      else F0.
Proof.
  intros Hg Hc H0 H1 H2 H3 H4 H5.
  destruct (transform_integrals_slow_accumulates num_bf g2e_ao coeff_mat
              n0 n1 n2 n3 m0 m1 Hg Hc H0 H1 H2 H3 H4 H5
              (zeros4 (shape4 g2e_ao)) Hg) as [t [Ht [Hsh Hd]]].
  exists t. split; [exact Ht|]. split; [congruence|].
  intros p q r s. rewrite Hd. simpl.
  rewrite <- (sum_range_cell num_bf p q r s (fun p q r s =>
    sum_range 0 num_bf (fun mu => sum_range 0 num_bf (fun nu =>
    sum_range 0 num_bf (fun rho => sum_range 0 num_bf (fun sigma =>
      data2 coeff_mat p mu * data2 coeff_mat q nu
      * data4 g2e_ao mu nu rho sigma
      * data2 coeff_mat r rho * data2 coeff_mat s sigma)))))).
  match goal with |- F0 + ?x = ?y => transitivity x; [ring|] end.
  apply sum_range_ext; intros p' _. apply sum_range_ext; intros q' _.
  apply sum_range_ext; intros r' _. apply sum_range_ext; intros s' _.
  rewrite <- sum_range_if. apply sum_range_ext; intros mu _.
  rewrite <- sum_range_if. apply sum_range_ext; intros nu _.
  rewrite <- sum_range_if. apply sum_range_ext; intros rho _.
  rewrite <- sum_range_if. reflexivity.
Qed.

End NaiveLoop.

(** ** The factored loops, [transform_integrals] *)

Section FactoredLoops.
Context {SC : Scalar}.
Add Field scalar_field_factored : Ffield.

Local Open Scope F_scope.

Lemma cell_in_bounds_iff (n a b c d : Z) :
  cell_in_bounds n a b c d = true <->
  (0 <= a < n /\ 0 <= b < n /\ 0 <= c < n /\ 0 <= d < n)%Z.
Proof.
  unfold cell_in_bounds, in_bounds.
  rewrite !andb_true_iff, !Z.leb_le, !Z.ltb_lt. tauto.
Qed.

Lemma cell_in_bounds_true (n a b c d : Z) :
  (0 <= a < n)%Z -> (0 <= b < n)%Z -> (0 <= c < n)%Z -> (0 <= d < n)%Z ->
  cell_in_bounds n a b c d = true.
Proof. intros. apply cell_in_bounds_iff. tauto. Qed.

Ltac enter_loop x H := apply for_range_accumulates; intros x H.

Variables (num_bf : Z) (coeff_mat : ndarray2) (n0 n1 n2 n3 m0 m1 : nat).
Hypothesis Hc : shape2 coeff_mat = (m0, m1).
Hypothesis H0 : (num_bf <= Z.of_nat n0)%Z.
Hypothesis H1 : (num_bf <= Z.of_nat n1)%Z.
Hypothesis H2 : (num_bf <= Z.of_nat n2)%Z.
Hypothesis H3 : (num_bf <= Z.of_nat n3)%Z.
Hypothesis H4 : (num_bf <= Z.of_nat m0)%Z.
Hypothesis H5 : (num_bf <= Z.of_nat m1)%Z.

(** Lines 103-108: the coefficient is [coeff_mat[rho, s]], so the sum over
    [sigma] never meets the matrix. *)
Lemma transform_integrals_nest1_result (g2e_ao g : ndarray4) :
  shape4 g2e_ao = (n0, n1, n2, n3) -> shape4 g = (n0, n1, n2, n3) ->
  exists g',
    Slow.transform_integrals_nest1 num_bf g2e_ao coeff_mat g = Ok g' /\
    shape4 g' = (n0, n1, n2, n3) /\
    forall mu nu rho s, data4 g' mu nu rho s =
      data4 g mu nu rho s +
      if cell_in_bounds num_bf mu nu rho s then
        sum_range 0 num_bf (fun sigma =>
          data4 g2e_ao mu nu rho sigma * data2 coeff_mat rho s)
      else F0.
Proof.
  intros Hg Ht.
  assert (accumulates (n0, n1, n2, n3)
    (Slow.transform_integrals_nest1 num_bf g2e_ao coeff_mat)
    (fun a b c d =>
     sum_range 0 num_bf (fun mu => sum_range 0 num_bf (fun nu =>
     sum_range 0 num_bf (fun rho => sum_range 0 num_bf (fun sigma =>
     sum_range 0 num_bf (fun s =>
       if same_cell mu nu rho s a b c d
       then data4 g2e_ao mu nu rho sigma * data2 coeff_mat rho s
       else F0))))))) as Hacc.
  { unfold Slow.transform_integrals_nest1.
    enter_loop mu Hmu. enter_loop nu Hnu. enter_loop rho Hrho.
    enter_loop sigma Hsigma. enter_loop s Hs.
    rewrite (getitem4_in g2e_ao n0 n1 n2 n3 mu nu rho sigma Hg) by lia.
    rewrite (getitem2_in coeff_mat m0 m1 rho s Hc) by lia.
    simpl bind. apply iadd4_accumulates; lia. }
  destruct (Hacc g Ht) as [g' [Hrun [Hsh Hd]]].
  exists g'. split; [exact Hrun|]. split; [exact Hsh|].
  intros a b c d. rewrite Hd. f_equal.
  rewrite <- (sum_range_cell num_bf a b c d (fun mu nu rho s =>
    sum_range 0 num_bf (fun sigma =>
      data4 g2e_ao mu nu rho sigma * data2 coeff_mat rho s))).
  apply sum_range_ext; intros mu _. apply sum_range_ext; intros nu _.
  apply sum_range_ext; intros rho _.
  unfold sum_range at 1 2. rewrite sum_over_swap.
  apply sum_range_ext; intros s _.
  apply sum_range_if.
Qed.

(** Lines 112-117. *)
Lemma transform_integrals_nest2_result (g gmo : ndarray4) :
  shape4 g = (n0, n1, n2, n3) -> shape4 gmo = (n0, n1, n2, n3) ->
  exists gmo',
    Slow.transform_integrals_nest2 num_bf g coeff_mat gmo = Ok gmo' /\
    shape4 gmo' = (n0, n1, n2, n3) /\
    forall mu nu r s, data4 gmo' mu nu r s =
      data4 gmo mu nu r s +
      if cell_in_bounds num_bf mu nu r s then
        sum_range 0 num_bf (fun rho =>
          data4 g mu nu rho s * data2 coeff_mat rho r)
      else F0.
Proof.
  intros Hg Ht.
  assert (accumulates (n0, n1, n2, n3)
    (Slow.transform_integrals_nest2 num_bf g coeff_mat)
    (fun a b c d =>
     sum_range 0 num_bf (fun mu => sum_range 0 num_bf (fun nu =>
     sum_range 0 num_bf (fun r => sum_range 0 num_bf (fun s =>
     sum_range 0 num_bf (fun rho =>
       if same_cell mu nu r s a b c d
       then data4 g mu nu rho s * data2 coeff_mat rho r
       else F0))))))) as Hacc.
  { unfold Slow.transform_integrals_nest2.
    enter_loop mu Hmu. enter_loop nu Hnu. enter_loop r Hr.
    enter_loop s Hs. enter_loop rho Hrho.
    rewrite (getitem4_in g n0 n1 n2 n3 mu nu rho s Hg) by lia.
    rewrite (getitem2_in coeff_mat m0 m1 rho r Hc) by lia.
    simpl bind. apply iadd4_accumulates; lia. }
  destruct (Hacc gmo Ht) as [g' [Hrun [Hsh Hd]]].
  exists g'. split; [exact Hrun|]. split; [exact Hsh|].
  intros a b c d. rewrite Hd. f_equal.
  rewrite <- (sum_range_cell num_bf a b c d (fun mu nu r s =>
    sum_range 0 num_bf (fun rho =>
      data4 g mu nu rho s * data2 coeff_mat rho r))).
  apply sum_range_ext; intros mu _. apply sum_range_ext; intros nu _.
  apply sum_range_ext; intros r _. apply sum_range_ext; intros s _.
  apply sum_range_if.
Qed.

(** Lines 120-125. *)
Lemma transform_integrals_nest3_result (gmo g : ndarray4) :
  shape4 gmo = (n0, n1, n2, n3) -> shape4 g = (n0, n1, n2, n3) ->
  exists g',
    Slow.transform_integrals_nest3 num_bf gmo coeff_mat g = Ok g' /\
    shape4 g' = (n0, n1, n2, n3) /\
    forall mu q r s, data4 g' mu q r s =
      data4 g mu q r s +
      if cell_in_bounds num_bf mu q r s then
        sum_range 0 num_bf (fun nu =>
          data4 gmo mu nu r s * data2 coeff_mat nu q)
      else F0.
Proof.
  intros Hg Ht.
  assert (accumulates (n0, n1, n2, n3)
    (Slow.transform_integrals_nest3 num_bf gmo coeff_mat)
    (fun a b c d =>
     sum_range 0 num_bf (fun mu => sum_range 0 num_bf (fun q =>
     sum_range 0 num_bf (fun r => sum_range 0 num_bf (fun s =>
     sum_range 0 num_bf (fun nu =>
       if same_cell mu q r s a b c d
       then data4 gmo mu nu r s * data2 coeff_mat nu q
       else F0))))))) as Hacc.
  { unfold Slow.transform_integrals_nest3.
    enter_loop mu Hmu. enter_loop q Hq. enter_loop r Hr.
    enter_loop s Hs. enter_loop nu Hnu.
    rewrite (getitem4_in gmo n0 n1 n2 n3 mu nu r s Hg) by lia.
    rewrite (getitem2_in coeff_mat m0 m1 nu q Hc) by lia.
    simpl bind. apply iadd4_accumulates; lia. }
  destruct (Hacc g Ht) as [g' [Hrun [Hsh Hd]]].
  exists g'. split; [exact Hrun|]. split; [exact Hsh|].
  intros a b c d. rewrite Hd. f_equal.
  rewrite <- (sum_range_cell num_bf a b c d (fun mu q r s =>
    sum_range 0 num_bf (fun nu =>
      data4 gmo mu nu r s * data2 coeff_mat nu q))).
  apply sum_range_ext; intros mu _. apply sum_range_ext; intros q _.
  apply sum_range_ext; intros r _. apply sum_range_ext; intros s _.
  apply sum_range_if.
Qed.

(** Lines 128-133. *)
Lemma transform_integrals_nest4_result (g gmo : ndarray4) :
  shape4 g = (n0, n1, n2, n3) -> shape4 gmo = (n0, n1, n2, n3) ->
  exists gmo',
    Slow.transform_integrals_nest4 num_bf g coeff_mat gmo = Ok gmo' /\
    shape4 gmo' = (n0, n1, n2, n3) /\
    forall p q r s, data4 gmo' p q r s =
      data4 gmo p q r s +
      if cell_in_bounds num_bf p q r s then
        sum_range 0 num_bf (fun mu =>
          data4 g mu q r s * data2 coeff_mat mu p)
      else F0.
Proof.
  intros Hg Ht.
  assert (accumulates (n0, n1, n2, n3)
    (Slow.transform_integrals_nest4 num_bf g coeff_mat)
    (fun a b c d =>
     sum_range 0 num_bf (fun p => sum_range 0 num_bf (fun q =>
     sum_range 0 num_bf (fun r => sum_range 0 num_bf (fun s =>
     sum_range 0 num_bf (fun mu =>
       if same_cell p q r s a b c d
       then data4 g mu q r s * data2 coeff_mat mu p
       else F0))))))) as Hacc.
  { unfold Slow.transform_integrals_nest4.
    enter_loop p Hp. enter_loop q Hq. enter_loop r Hr.
    enter_loop s Hs. enter_loop mu Hmu.
    rewrite (getitem4_in g n0 n1 n2 n3 mu q r s Hg) by lia.
    rewrite (getitem2_in coeff_mat m0 m1 mu p Hc) by lia.
    simpl bind. apply iadd4_accumulates; lia. }
  destruct (Hacc gmo Ht) as [g' [Hrun [Hsh Hd]]].
  exists g'. split; [exact Hrun|]. split; [exact Hsh|].
  intros a b c d. rewrite Hd. f_equal.
  rewrite <- (sum_range_cell num_bf a b c d (fun p q r s =>
    sum_range 0 num_bf (fun mu =>
      data4 g mu q r s * data2 coeff_mat mu p))).
  apply sum_range_ext; intros p _. apply sum_range_ext; intros q _.
  apply sum_range_ext; intros r _. apply sum_range_ext; intros s _.
  apply sum_range_if.
Qed.

End FactoredLoops.

Section Factored.
Context {SC : Scalar}.
Add Field scalar_field_factored2 : Ffield.

Local Open Scope F_scope.

Lemma add_zero_l (x : F) : F0 + x = x.
Proof. ring. Qed.

(** The first intermediate array of [transform_integrals]. *)
Lemma transform_integrals_first_result (num_bf : Z) (g2e_ao : ndarray4)
    (coeff_mat : ndarray2) (n0 n1 n2 n3 m0 m1 : nat) :
  shape4 g2e_ao = (n0, n1, n2, n3) -> shape2 coeff_mat = (m0, m1) ->
  (num_bf <= Z.of_nat n0)%Z -> (num_bf <= Z.of_nat n1)%Z ->
  (num_bf <= Z.of_nat n2)%Z -> (num_bf <= Z.of_nat n3)%Z ->
  (num_bf <= Z.of_nat m0)%Z -> (num_bf <= Z.of_nat m1)%Z ->
  exists g,
    Slow.transform_integrals_nest1 num_bf g2e_ao coeff_mat
      (zeros4 (shape4 g2e_ao)) = Ok g /\
    shape4 g = shape4 g2e_ao /\
    forall mu nu rho s, data4 g mu nu rho s =
      if cell_in_bounds num_bf mu nu rho s
      then nest1_value num_bf g2e_ao coeff_mat mu nu rho s else F0.
Proof.
  intros Hg Hc H0 H1 H2 H3 H4 H5.
  destruct (transform_integrals_nest1_result num_bf coeff_mat
              n0 n1 n2 n3 m0 m1 Hc H0 H1 H2 H3 H4 H5
              g2e_ao (zeros4 (shape4 g2e_ao)) Hg Hg) as [g [Hrun [Hsh Hd]]].
  exists g. split; [exact Hrun|]. split; [congruence|].
  intros mu nu rho s. rewrite Hd. simpl. apply add_zero_l.
Qed.

(** What [transform_integrals] returns. *)
Lemma transform_integrals_result (num_bf : Z) (g2e_ao : ndarray4)
    (coeff_mat : ndarray2) (n0 n1 n2 n3 m0 m1 : nat) :
  shape4 g2e_ao = (n0, n1, n2, n3) -> shape2 coeff_mat = (m0, m1) ->
  (num_bf <= Z.of_nat n0)%Z -> (num_bf <= Z.of_nat n1)%Z ->
  (num_bf <= Z.of_nat n2)%Z -> (num_bf <= Z.of_nat n3)%Z ->
  (num_bf <= Z.of_nat m0)%Z -> (num_bf <= Z.of_nat m1)%Z ->
  exists gmo,
    Slow.transform_integrals num_bf g2e_ao coeff_mat = Ok gmo /\
    shape4 gmo = shape4 g2e_ao /\
    forall p q r s, data4 gmo p q r s =
      if cell_in_bounds num_bf p q r s
      then factored_value num_bf g2e_ao coeff_mat p q r s else F0.
Proof.
  intros Hg Hc H0 H1 H2 H3 H4 H5.
  unfold Slow.transform_integrals.
  destruct (transform_integrals_first_result num_bf g2e_ao coeff_mat
              n0 n1 n2 n3 m0 m1 Hg Hc H0 H1 H2 H3 H4 H5)
    as [g1 [Hrun1 [Hsh1 Hd1]]].
  rewrite Hrun1. simpl bind. rewrite Hg in Hsh1.
  destruct (transform_integrals_nest2_result num_bf coeff_mat
              n0 n1 n2 n3 m0 m1 Hc H0 H1 H2 H3 H4 H5
              g1 (zeros4 (shape4 g2e_ao)) Hsh1 Hg) as [g2 [Hrun2 [Hsh2 Hd2]]].
  rewrite Hrun2. simpl bind.
  destruct (transform_integrals_nest3_result num_bf coeff_mat
              n0 n1 n2 n3 m0 m1 Hc H0 H1 H2 H3 H4 H5
              g2 (fill0 g1) Hsh2 Hsh1) as [g3 [Hrun3 [Hsh3 Hd3]]].
  rewrite Hrun3. simpl bind.
  destruct (transform_integrals_nest4_result num_bf coeff_mat
              n0 n1 n2 n3 m0 m1 Hc H0 H1 H2 H3 H4 H5
              g3 (fill0 g2) Hsh3 Hsh2) as [g4 [Hrun4 [Hsh4 Hd4]]].
  rewrite Hrun4. simpl bind.
  exists g4. split; [reflexivity|]. split; [congruence|].
  intros p q r s. rewrite Hd4. simpl. rewrite add_zero_l.
  destruct (cell_in_bounds num_bf p q r s) eqn:Hb; [|reflexivity].
  apply cell_in_bounds_iff in Hb. destruct Hb as [Hp [Hq [Hr Hs]]].
  unfold factored_value.
  apply sum_range_ext; intros mu Hmu. f_equal.
  rewrite Hd3. simpl. rewrite add_zero_l.
  rewrite cell_in_bounds_true by assumption.
  apply sum_range_ext; intros nu Hnu. f_equal.
  rewrite Hd2. simpl. rewrite add_zero_l.
  rewrite cell_in_bounds_true by assumption.
  apply sum_range_ext; intros rho Hrho. f_equal.
  rewrite Hd1. now rewrite cell_in_bounds_true by assumption.
Qed.

End Factored.

(** ** The energy loops, [compute_mp2_energy] *)

Section EnergyLoops.
Context {SC : Scalar}.
Add Field scalar_field_energy : Ffield.

Local Open Scope F_scope.

Lemma xadd_assoc (a b c : xval) : xadd (xadd a b) c = xadd a (xadd b c).
Proof.
  destruct a, b, c; simpl; try reflexivity. f_equal. ring.
Qed.

Lemma xadd_zero_r (a : xval) : xadd a (Finite F0) = a.
Proof. destruct a; simpl; [f_equal; ring|reflexivity]. Qed.

Lemma xadd_zero_l (a : xval) : xadd (Finite F0) a = a.
Proof. destruct a; simpl; [f_equal; ring|reflexivity]. Qed.

Lemma xdiv_finite (x y : F) : y <> F0 -> xdiv x y = Finite (x / y).
Proof. intros H. unfold xdiv. destruct (Feq_dec y F0); [contradiction|reflexivity]. Qed.

Lemma xdiv_zero (x y : F) : y = F0 -> xdiv x y = NonFinite.
Proof. intros H. unfold xdiv. destruct (Feq_dec y F0); [reflexivity|contradiction]. Qed.


Lemma xsum_over_finite (xs : list Z) (v : Z -> xval) (f : Z -> F) :
  (forall x, In x xs -> v x = Finite (f x)) ->
  xsum_over xs v = Finite (sum_over xs f).
Proof.
  induction xs as [|x xs IH]; intros H; simpl; [reflexivity|].
  rewrite H by (now left). rewrite IH; [reflexivity|].
  intros y Hy. apply H. now right.
Qed.

Lemma xsum_over_nonfinite (xs : list Z) (v : Z -> xval) :
  xsum_over xs v = NonFinite <-> exists x, In x xs /\ v x = NonFinite.
Proof.
  induction xs as [|x xs IH]; simpl.
  - split; [discriminate|]. intros [x [[] _]].
  - split.
    + intros H. destruct (v x) eqn:Hx.
      * destruct (xsum_over xs v) eqn:Hs; [discriminate|].
        destruct (proj1 IH eq_refl) as [y [Hy Hv]].
        exists y. split; [now right|assumption].
      * exists x. split; [now left|assumption].
    + intros [y [[->|Hy] Hv]].
      * now rewrite Hv.
      * assert (xsum_over xs v = NonFinite) as -> by (apply IH; eauto).
        destruct (v x); reflexivity.
Qed.

Lemma xsum_range_finite (lo hi : Z) (v : Z -> xval) (f : Z -> F) :
  (forall x, (lo <= x < hi)%Z -> v x = Finite (f x)) ->
  xsum_range lo hi v = Finite (sum_range lo hi f).
Proof.
  intros H. apply xsum_over_finite. intros x Hx. apply H. now apply in_range.
Qed.

Lemma xsum_range_nonfinite (lo hi : Z) (v : Z -> xval) :
  xsum_range lo hi v = NonFinite <->
  exists x, (lo <= x < hi)%Z /\ v x = NonFinite.
Proof.
  unfold xsum_range. rewrite xsum_over_nonfinite.
  split; intros [x [Hx Hv]]; exists x; (split; [apply in_range|]); assumption.
Qed.

Lemma for_each_adds (xs : list Z)
    (body : Z -> xval * nat -> result (xval * nat))
    (v : Z -> xval) (k : nat) :
  (forall x, In x xs -> adds (body x) (v x) k) ->
  adds (for_each xs body) (xsum_over xs v) (length xs * k).
Proof.
  induction xs as [|x xs IH]; intros Hb E n; simpl.
  - now rewrite xadd_zero_r.
  - rewrite (Hb x (or_introl eq_refl)). simpl.
    rewrite (IH (fun y Hy => Hb y (or_intror Hy))).
    rewrite xadd_assoc. do 2 f_equal. lia.
Qed.

Lemma for_range_adds (lo hi : Z)
    (body : Z -> xval * nat -> result (xval * nat))
    (v : Z -> xval) (k : nat) :
  (forall x, (lo <= x < hi)%Z -> adds (body x) (v x) k) ->
  adds (for_each (range lo hi) body) (xsum_range lo hi v)
    (Z.to_nat (hi - lo) * k).
Proof.
  intros H. rewrite <- length_range. apply for_each_adds.
  intros x Hx. apply H. now apply in_range.
Qed.

(** The four loops of [compute_mp2_energy]: provided every array axis is at
    least [num_bf] long, they return the sum of the terms and have read
    seven elements per term. *)
Lemma compute_mp2_energy_run_result (num_bf nocc : Z) (g2e_mo : ndarray4)
    (orb_e : ndarray1) (ehf : F) (n0 n1 n2 n3 : nat) :
  shape4 g2e_mo = (n0, n1, n2, n3) ->
  (num_bf <= Z.of_nat n0)%Z -> (num_bf <= Z.of_nat n1)%Z ->
  (num_bf <= Z.of_nat n2)%Z -> (num_bf <= Z.of_nat n3)%Z ->
  (num_bf <= Z.of_nat (shape1 orb_e))%Z ->
  Slow.compute_mp2_energy_run num_bf nocc g2e_mo orb_e ehf
  = Ok (mp2_xsum num_bf nocc g2e_mo orb_e,
        (mp2_iterations num_bf nocc * 7)%nat).
Proof.
  intros Hg H0 H1 H2 H3 He.
  unfold Slow.compute_mp2_energy_run.
  assert (adds
    (for_each (range 0 nocc) (fun i =>
     for_each (range 0 nocc) (fun j =>
     for_each (range nocc num_bf) (fun a =>
     for_each (range nocc num_bf) (fun b '(E, n) =>
       '(x, n) <- read4 g2e_mo i a j b n ;;
       '(y, n) <- read4 g2e_mo i a j b n ;;
       '(z, n) <- read4 g2e_mo i b j a n ;;
       '(ei, n) <- read1 orb_e i n ;;
       '(ej, n) <- read1 orb_e j n ;;
       '(ea, n) <- read1 orb_e a n ;;
       '(eb, n) <- read1 orb_e b n ;;
       Ok (xadd E (xdiv (x * (two * y - z)) (ei + ej - ea - eb)), n))))))
    (mp2_xsum num_bf nocc g2e_mo orb_e)
    (Z.to_nat (nocc - 0) * (Z.to_nat (nocc - 0)
      * (Z.to_nat (num_bf - nocc) * (Z.to_nat (num_bf - nocc) * 7))))) as Hadds.
  { unfold mp2_xsum.
    apply for_range_adds; intros i Hi.
    apply for_range_adds; intros j Hj.
    apply for_range_adds; intros a Ha.
    apply for_range_adds; intros b Hb.
    intros E n. unfold read4, read1.
    rewrite (getitem4_in g2e_mo n0 n1 n2 n3 i a j b Hg) by lia.
    rewrite (getitem4_in g2e_mo n0 n1 n2 n3 i b j a Hg) by lia.
    rewrite !getitem1_in by lia.
    simpl. unfold mp2_xterm. do 2 f_equal. }
  rewrite Hadds. rewrite xadd_zero_l. f_equal. f_equal.
  unfold mp2_iterations. rewrite Z.sub_0_r. lia.
Qed.

Lemma compute_mp2_energy_fast_slow (num_bf nocc : Z) (g2e_mo : ndarray4)
    (orb_e : ndarray1) (ehf : F) :
  Fast.compute_mp2_energy_run num_bf nocc g2e_mo orb_e ehf
  = Slow.compute_mp2_energy_run num_bf nocc g2e_mo orb_e ehf.
Proof. reflexivity. Qed.

End EnergyLoops.

(** ** The index quadruples of the energy sum *)

Lemma NoDup_flat_map {A B : Type} (h : A -> list B) (xs : list A) :
  NoDup xs ->
  (forall x, In x xs -> NoDup (h x)) ->
  (forall x y q, In x xs -> In y xs -> In q (h x) -> In q (h y) -> x = y) ->
  NoDup (flat_map h xs).
Proof.
  induction xs as [|x xs IH]; intros Hnd Hh Hdisj; simpl; [constructor|].
  inversion Hnd as [|? ? Hx Hnd']; subst.
  apply NoDup_app.
  - apply Hh. now left.
  - apply IH; [assumption| |].
    + intros y Hy. apply Hh. now right.
    + intros y z q Hy Hz. apply Hdisj; now right.
  - intros q Hq Hq'. apply in_flat_map in Hq'. destruct Hq' as [y [Hy Hqy]].
    assert (x = y) as -> by (apply (Hdisj x y q); auto; [now left|now right]).
    contradiction.
Qed.

Lemma in_mp2_quads (N nocc i j a b : Z) :
  In (i, j, a, b) (mp2_quads N nocc) <->
  0 <= i < nocc /\ 0 <= j < nocc /\ nocc <= a < N /\ nocc <= b < N.
Proof.
  unfold mp2_quads. split.
  - intros H.
    apply in_flat_map in H. destruct H as [i' [Hi H]].
    apply in_flat_map in H. destruct H as [j' [Hj H]].
    apply in_flat_map in H. destruct H as [a' [Ha H]].
    apply in_map_iff in H. destruct H as [b' [Heq Hb]].
    injection Heq as -> -> -> ->.
    rewrite in_range in Hi, Hj, Ha, Hb. tauto.
  - intros [Hi [Hj [Ha Hb]]].
    apply in_flat_map. exists i. split; [now apply in_range|].
    apply in_flat_map. exists j. split; [now apply in_range|].
    apply in_flat_map. exists a. split; [now apply in_range|].
    apply in_map_iff. exists b. split; [reflexivity|now apply in_range].
Qed.

Lemma NoDup_mp2_quads (N nocc : Z) : NoDup (mp2_quads N nocc).
Proof.
  unfold mp2_quads.
  apply NoDup_flat_map; [apply NoDup_range| |].
  - intros i _. apply NoDup_flat_map; [apply NoDup_range| |].
    + intros j _. apply NoDup_flat_map; [apply NoDup_range| |].
      * intros a _. apply Injective_map_NoDup; [|apply NoDup_range].
        intros b b' Hb. now injection Hb.
      * intros a a' [[[i' j'] a''] b] _ _ H1 H2.
        apply in_map_iff in H1. destruct H1 as [b1 [E1 _]].
        apply in_map_iff in H2. destruct H2 as [b2 [E2 _]].
        congruence.
    + intros j j' [[[i' j''] a] b] _ _ H1 H2.
      apply in_flat_map in H1. destruct H1 as [a1 [_ H1]].
      apply in_map_iff in H1. destruct H1 as [b1 [E1 _]].
      apply in_flat_map in H2. destruct H2 as [a2 [_ H2]].
      apply in_map_iff in H2. destruct H2 as [b2 [E2 _]].
      congruence.
  - intros i i' [[[i'' j] a] b] _ _ H1 H2.
    apply in_flat_map in H1. destruct H1 as [j1 [_ H1]].
    apply in_flat_map in H1. destruct H1 as [a1 [_ H1]].
    apply in_map_iff in H1. destruct H1 as [b1 [E1 _]].
    apply in_flat_map in H2. destruct H2 as [j2 [_ H2]].
    apply in_flat_map in H2. destruct H2 as [a2 [_ H2]].
    apply in_map_iff in H2. destruct H2 as [b2 [E2 _]].
    congruence.
Qed.

Lemma length_mp2_quads (N nocc : Z) :
  length (mp2_quads N nocc) = mp2_iterations N nocc.
Proof.
  unfold mp2_quads, mp2_iterations.
  rewrite flat_map_constant_length
    with (c := (Z.to_nat nocc * (Z.to_nat (N - nocc) * Z.to_nat (N - nocc)))%nat).
  - rewrite length_range. now rewrite Z.sub_0_r.
  - intros i _.
    rewrite flat_map_constant_length
      with (c := (Z.to_nat (N - nocc) * Z.to_nat (N - nocc))%nat).
    + rewrite length_range. now rewrite Z.sub_0_r.
    + intros j _.
      rewrite flat_map_constant_length with (c := Z.to_nat (N - nocc)).
      * now rewrite length_range.
      * intros a _. now rewrite length_map, length_range.
Qed.

Section QuadSums.
Context {SC : Scalar}.
Add Field scalar_field_quads : Ffield.

Local Open Scope F_scope.

Lemma sum_quads_app (l1 l2 : list (Z * Z * Z * Z)) (f : Z -> Z -> Z -> Z -> F) :
  sum_quads (l1 ++ l2) f = sum_quads l1 f + sum_quads l2 f.
Proof.
  induction l1 as [|[[[i j] a] b] l1 IH]; simpl; [ring|].
  rewrite IH. ring.
Qed.

Lemma sum_quads_flat_map (h : Z -> list (Z * Z * Z * Z)) (xs : list Z)
    (f : Z -> Z -> Z -> Z -> F) :
  sum_quads (flat_map h xs) f = sum_over xs (fun x => sum_quads (h x) f).
Proof.
  induction xs as [|x xs IH]; simpl; [reflexivity|].
  now rewrite sum_quads_app, IH.
Qed.

Lemma sum_quads_map (i j a : Z) (xs : list Z) (f : Z -> Z -> Z -> Z -> F) :
  sum_quads (map (fun b => (i, j, a, b)) xs) f = sum_over xs (f i j a).
Proof.
  induction xs as [|x xs IH]; simpl; [reflexivity|]. now rewrite IH.
Qed.

(** The nested sum is the sum over the list of quadruples. *)
Lemma mp2_sum_quads (N nocc : Z) (g2e_mo : ndarray4) (orb_e : ndarray1) :
  mp2_sum N nocc g2e_mo orb_e
  = sum_quads (mp2_quads N nocc) (mp2_term g2e_mo orb_e).
Proof.
  unfold mp2_sum, mp2_quads, sum_range.
  rewrite sum_quads_flat_map. apply sum_over_ext; intros i _.
  rewrite sum_quads_flat_map. apply sum_over_ext; intros j _.
  rewrite sum_quads_flat_map. apply sum_over_ext; intros a _.
  now rewrite sum_quads_map.
Qed.

(** With no empty denominator the accumulated value is the finite sum. *)
Lemma mp2_xsum_finite (N nocc : Z) (g2e_mo : ndarray4) (orb_e : ndarray1) :
  (forall i j a b,
     (0 <= i < nocc)%Z -> (0 <= j < nocc)%Z ->
     (nocc <= a < N)%Z -> (nocc <= b < N)%Z ->
     mp2_denominator orb_e i j a b <> F0) ->
  mp2_xsum N nocc g2e_mo orb_e = Finite (mp2_sum N nocc g2e_mo orb_e).
Proof.
  intros Hden. unfold mp2_xsum, mp2_sum.
  apply xsum_range_finite; intros i Hi.
  apply xsum_range_finite; intros j Hj.
  apply xsum_range_finite; intros a Ha.
  apply xsum_range_finite; intros b Hb.
  unfold mp2_xterm, mp2_term. apply xdiv_finite.
  apply (Hden i j a b); assumption.
Qed.

(** With an empty denominator it is not finite. *)
Lemma mp2_xsum_nonfinite (N nocc : Z) (g2e_mo : ndarray4) (orb_e : ndarray1) :
  mp2_xsum N nocc g2e_mo orb_e = NonFinite <->
  exists i j a b,
    (0 <= i < nocc)%Z /\ (0 <= j < nocc)%Z /\
    (nocc <= a < N)%Z /\ (nocc <= b < N)%Z /\
    mp2_denominator orb_e i j a b = F0.
Proof.
  unfold mp2_xsum. rewrite xsum_range_nonfinite. split.
  - intros [i [Hi H]]. apply xsum_range_nonfinite in H. destruct H as [j [Hj H]].
    apply xsum_range_nonfinite in H. destruct H as [a [Ha H]].
    apply xsum_range_nonfinite in H. destruct H as [b [Hb H]].
    exists i, j, a, b. repeat split; try tauto.
    unfold mp2_xterm, xdiv in H. unfold mp2_denominator.
    destruct (Feq_dec _ F0) as [E|E]; [exact E|discriminate].
  - intros [i [j [a [b [Hi [Hj [Ha [Hb H]]]]]]]].
    exists i. split; [assumption|]. apply xsum_range_nonfinite.
    exists j. split; [assumption|]. apply xsum_range_nonfinite.
    exists a. split; [assumption|]. apply xsum_range_nonfinite.
    exists b. split; [assumption|]. unfold mp2_xterm. now apply xdiv_zero.
Qed.

(** The loops do not run their body when there is no occupied or no
    virtual orbital. *)
Lemma compute_mp2_energy_run_empty (num_bf nocc : Z) (g2e_mo : ndarray4)
    (orb_e : ndarray1) (ehf : F) :
  (nocc <= 0 \/ num_bf <= nocc)%Z ->
  Slow.compute_mp2_energy_run num_bf nocc g2e_mo orb_e ehf
  = Ok (Finite F0, 0%nat).
Proof.
  intros [H|H]; unfold Slow.compute_mp2_energy_run.
  - now rewrite (range_empty 0 nocc) by assumption.
  - rewrite (range_empty nocc num_bf) by assumption.
    apply for_each_skip. intros i s _.
    apply for_each_skip. intros j s' _. reflexivity.
Qed.

End QuadSums.

(** * The MP2 energy *)

Section EnergyClaims.
Context {SC : Scalar}.

(** C5.  For [num_bf = N], [0 <= nocc <= N], an N x N x N x N array
    [g2e_mo] and N orbital energies with no denominator equal to zero,
    [compute_mp2_energy] (of either file) returns
    [E = sum_{i,j < nocc} sum_{nocc <= a,b < N}
         g2e_mo[i,a,j,b] * (2 * g2e_mo[i,a,j,b] - g2e_mo[i,b,j,a])
         / (orb_e[i] + orb_e[j] - orb_e[a] - orb_e[b])].
    Every term is contributed exactly once: the sum is the sum over the
    list of the quadruples the loops visit, that list has no duplicates,
    holds exactly the quadruples of occ x occ x virt x virt, so
    [nocc^2 * (N - nocc)^2] of them, and the loop body has run once per
    quadruple (seven element reads each). *)
Theorem compute_mp2_energy_formula (N : nat) (nocc : Z) (g2e_mo : ndarray4)
    (orb_e : ndarray1) (ehf : F) :
  0 <= nocc <= Z.of_nat N ->
  shape4 g2e_mo = (N, N, N, N) ->
  shape1 orb_e = N ->
  (forall i j a b,
     0 <= i < nocc -> 0 <= j < nocc ->
     nocc <= a < Z.of_nat N -> nocc <= b < Z.of_nat N ->
     mp2_denominator orb_e i j a b <> F0) ->
  Slow.compute_mp2_energy (Z.of_nat N) nocc g2e_mo orb_e ehf
    = Ok (Finite (mp2_sum (Z.of_nat N) nocc g2e_mo orb_e)) /\
  Fast.compute_mp2_energy (Z.of_nat N) nocc g2e_mo orb_e ehf
    = Ok (Finite (mp2_sum (Z.of_nat N) nocc g2e_mo orb_e)) /\
  mp2_sum (Z.of_nat N) nocc g2e_mo orb_e
    = sum_quads (mp2_quads (Z.of_nat N) nocc) (mp2_term g2e_mo orb_e) /\
  NoDup (mp2_quads (Z.of_nat N) nocc) /\
  (forall i j a b,
     In (i, j, a, b) (mp2_quads (Z.of_nat N) nocc) <->
     0 <= i < nocc /\ 0 <= j < nocc /\
     nocc <= a < Z.of_nat N /\ nocc <= b < Z.of_nat N) /\
  Z.of_nat (length (mp2_quads (Z.of_nat N) nocc))
    = nocc * nocc * ((Z.of_nat N - nocc) * (Z.of_nat N - nocc)) /\
  Slow.compute_mp2_energy_run (Z.of_nat N) nocc g2e_mo orb_e ehf
    = Ok (Finite (mp2_sum (Z.of_nat N) nocc g2e_mo orb_e),
          (length (mp2_quads (Z.of_nat N) nocc) * 7)%nat).
Proof.
  intros Hn Hg He Hden.
  assert (Slow.compute_mp2_energy_run (Z.of_nat N) nocc g2e_mo orb_e ehf
          = Ok (Finite (mp2_sum (Z.of_nat N) nocc g2e_mo orb_e),
                (length (mp2_quads (Z.of_nat N) nocc) * 7)%nat)) as Hrun.
  { rewrite (compute_mp2_energy_run_result (Z.of_nat N) nocc g2e_mo orb_e ehf
               N N N N Hg); try lia.
    rewrite mp2_xsum_finite by assumption.
    now rewrite length_mp2_quads. }
  refine (conj _ (conj _ (conj _ (conj _ (conj _ (conj _ _)))))).
  - unfold Slow.compute_mp2_energy. now rewrite Hrun.
  - unfold Fast.compute_mp2_energy.
    rewrite compute_mp2_energy_fast_slow. now rewrite Hrun.
  - apply mp2_sum_quads.
  - apply NoDup_mp2_quads.
  - intros i j a b. apply in_mp2_quads.
  - rewrite length_mp2_quads. unfold mp2_iterations. nia.
  - exact Hrun.
Qed.

(** C8.  With [nocc = 0] and with [nocc = num_bf] the function returns
    [E = 0] (no term is added), and does so for every array and every
    orbital energies: it does not raise. *)
Theorem compute_mp2_energy_boundary (num_bf : Z) (g2e_mo : ndarray4)
    (orb_e : ndarray1) (ehf : F) :
  Slow.compute_mp2_energy num_bf 0 g2e_mo orb_e ehf = Ok (Finite F0) /\
  Slow.compute_mp2_energy num_bf num_bf g2e_mo orb_e ehf = Ok (Finite F0) /\
  Fast.compute_mp2_energy num_bf 0 g2e_mo orb_e ehf = Ok (Finite F0) /\
  Fast.compute_mp2_energy num_bf num_bf g2e_mo orb_e ehf = Ok (Finite F0).
Proof.
  change (@Fast.compute_mp2_energy SC) with (@Slow.compute_mp2_energy SC).
  unfold Slow.compute_mp2_energy.
  rewrite (compute_mp2_energy_run_empty num_bf 0) by lia.
  rewrite (compute_mp2_energy_run_empty num_bf num_bf) by lia.
  repeat split.
Qed.

(** C10.  With [nocc < 0] or [nocc > num_bf] the function returns [0.0]:
    it does not raise and reads no element of [g2e_mo] or [orb_e] (the
    count of element reads is zero), whatever the arrays are. *)
Theorem compute_mp2_energy_outside_range (num_bf nocc : Z)
    (g2e_mo : ndarray4) (orb_e : ndarray1) (ehf : F) :
  nocc < 0 \/ nocc > num_bf ->
  Slow.compute_mp2_energy_run num_bf nocc g2e_mo orb_e ehf
    = Ok (Finite F0, 0%nat) /\
  Fast.compute_mp2_energy_run num_bf nocc g2e_mo orb_e ehf
    = Ok (Finite F0, 0%nat) /\
  Slow.compute_mp2_energy num_bf nocc g2e_mo orb_e ehf = Ok (Finite F0) /\
  Fast.compute_mp2_energy num_bf nocc g2e_mo orb_e ehf = Ok (Finite F0).
Proof.
  intros H.
  change (@Fast.compute_mp2_energy SC) with (@Slow.compute_mp2_energy SC).
  change (@Fast.compute_mp2_energy_run SC)
    with (@Slow.compute_mp2_energy_run SC).
  unfold Slow.compute_mp2_energy.
  rewrite compute_mp2_energy_run_empty by lia.
  repeat split.
Qed.

End EnergyClaims.

Lemma qc_neq (x y : Qc) : this x <> this y -> x <> y.
Proof. intros H E. apply H. now rewrite E. Qed.

Lemma compute_mp2_energy_formula_witness :
  Slow.compute_mp2_energy 2 1 g2e_ex orb_ex (qz 0)
    = Ok (Finite (mp2_sum 2 1 g2e_ex orb_ex)) /\
  Fast.compute_mp2_energy 2 1 g2e_ex orb_ex (qz 0)
    = Ok (Finite (mp2_sum 2 1 g2e_ex orb_ex)) /\
  mp2_sum 2 1 g2e_ex orb_ex
    = sum_quads (mp2_quads 2 1) (mp2_term g2e_ex orb_ex) /\
  NoDup (mp2_quads 2 1) /\
  (forall i j a b,
     In (i, j, a, b) (mp2_quads 2 1) <->
     0 <= i < 1 /\ 0 <= j < 1 /\ 1 <= a < 2 /\ 1 <= b < 2) /\
  Z.of_nat (length (mp2_quads 2 1)) = 1 * 1 * ((2 - 1) * (2 - 1)) /\
  Slow.compute_mp2_energy_run 2 1 g2e_ex orb_ex (qz 0)
    = Ok (Finite (mp2_sum 2 1 g2e_ex orb_ex), (length (mp2_quads 2 1) * 7)%nat).
Proof.
  apply (compute_mp2_energy_formula (SC := Qc_Scalar) 2 1 g2e_ex orb_ex (qz 0)).
  - lia.
  - reflexivity.
  - reflexivity.
  - intros i j a b Hi Hj Ha Hb.
    assert (i = 0) as -> by lia. assert (j = 0) as -> by lia.
    assert (a = 1) as -> by lia. assert (b = 1) as -> by lia.
    apply qc_neq. vm_compute. discriminate.
Defined.

Lemma compute_mp2_energy_outside_range_witness :
  Slow.compute_mp2_energy_run 2 (-1) g2e_ex orb_ex (qz 0)
    = Ok (Finite F0, 0%nat) /\
  Fast.compute_mp2_energy_run 2 (-1) g2e_ex orb_ex (qz 0)
    = Ok (Finite F0, 0%nat) /\
  Slow.compute_mp2_energy 2 (-1) g2e_ex orb_ex (qz 0) = Ok (Finite F0) /\
  Fast.compute_mp2_energy 2 (-1) g2e_ex orb_ex (qz 0) = Ok (Finite F0).
Proof.
  apply (compute_mp2_energy_outside_range (SC := Qc_Scalar) 2 (-1)
           g2e_ex orb_ex (qz 0)).
  left. lia.
Defined.

(** ** Degenerate orbitals *)

Section EnergyErrors.
Context {SC : Scalar}.

Lemma read4_raises (t : ndarray4) (i j k l : Z) (n : nat) (e : exn) :
  read4 t i j k l n = Raise e -> e = IndexError.
Proof.
  unfold read4. destruct (getitem4 t i j k l) eqn:H; simpl; [discriminate|].
  intros E. injection E as <-. eapply getitem4_raises; eassumption.
Qed.

Lemma read1_raises (t : ndarray1) (i : Z) (n : nat) (e : exn) :
  read1 t i n = Raise e -> e = IndexError.
Proof.
  unfold read1. destruct (getitem1 t i) eqn:H; simpl; [discriminate|].
  intros E. injection E as <-. eapply getitem1_raises; eassumption.
Qed.

(** A bind raises what its first part raises, or else what the rest
    raises. *)
Lemma bind_raises {A B : Type} (P : exn -> Prop) (m : result A)
    (k : A -> result B) (e : exn) :
  (forall e', m = Raise e' -> P e') ->
  (forall a e', m = Ok a -> k a = Raise e' -> P e') ->
  bind m k = Raise e -> P e.
Proof.
  intros Hm Hk. destruct m as [a|e']; simpl.
  - apply Hk. reflexivity.
  - intros E. injection E as <-. now apply Hm.
Qed.

(** The only exception of [compute_mp2_energy] is the [IndexError] of an
    element read. *)
Lemma compute_mp2_energy_run_raises (num_bf nocc : Z) (g2e_mo : ndarray4)
    (orb_e : ndarray1) (ehf : F) (e : exn) :
  Slow.compute_mp2_energy_run num_bf nocc g2e_mo orb_e ehf = Raise e ->
  e = IndexError.
Proof.
  unfold Slow.compute_mp2_energy_run.
  apply (for_each_raises (fun e => e = IndexError)); intros i s0 e0 _.
  apply (for_each_raises (fun e => e = IndexError)); intros j s1 e1 _.
  apply (for_each_raises (fun e => e = IndexError)); intros a s2 e2 _.
  apply (for_each_raises (fun e => e = IndexError)); intros b [E n] e3 _.
  apply (bind_raises (fun e => e = IndexError));
    [intros e'; apply read4_raises|]. intros [x n1] e4 _.
  apply (bind_raises (fun e => e = IndexError));
    [intros e'; apply read4_raises|]. intros [y n2] e5 _.
  apply (bind_raises (fun e => e = IndexError));
    [intros e'; apply read4_raises|]. intros [z n3] e6 _.
  apply (bind_raises (fun e => e = IndexError));
    [intros e'; apply read1_raises|]. intros [ei n4] e7 _.
  apply (bind_raises (fun e => e = IndexError));
    [intros e'; apply read1_raises|]. intros [ej n5] e8 _.
  apply (bind_raises (fun e => e = IndexError));
    [intros e'; apply read1_raises|]. intros [ea n6] e9 _.
  apply (bind_raises (fun e => e = IndexError));
    [intros e'; apply read1_raises|]. intros [eb n7] e10 _.
  discriminate.
Qed.

Lemma compute_mp2_energy_raises (num_bf nocc : Z) (g2e_mo : ndarray4)
    (orb_e : ndarray1) (ehf : F) (e : exn) :
  Slow.compute_mp2_energy num_bf nocc g2e_mo orb_e ehf = Raise e ->
  e = IndexError.
Proof.
  unfold Slow.compute_mp2_energy.
  apply (bind_raises (fun e => e = IndexError));
    [intros e'; apply compute_mp2_energy_run_raises|].
  intros [E n] e' _. discriminate.
Qed.

(** C6, as amended.  [compute_mp2_energy] (of either file) has no test of
    the denominators and raises no degeneracy error: an exception, if any,
    is the [IndexError] of an element read.  For [0 <= nocc <= N] and
    arrays of dimension [N] it returns a value, whatever the denominators
    are, zero and near zero included. *)
Theorem compute_mp2_energy_no_degeneracy_check (num_bf nocc : Z)
    (g2e_mo : ndarray4) (orb_e : ndarray1) (ehf : F) :
  (forall e,
     Slow.compute_mp2_energy num_bf nocc g2e_mo orb_e ehf = Raise e \/
     Fast.compute_mp2_energy num_bf nocc g2e_mo orb_e ehf = Raise e ->
     e = IndexError) /\
  (forall N : nat,
     num_bf = Z.of_nat N -> 0 <= nocc <= Z.of_nat N ->
     shape4 g2e_mo = (N, N, N, N) -> shape1 orb_e = N ->
     exists E,
       Slow.compute_mp2_energy num_bf nocc g2e_mo orb_e ehf = Ok E /\
       Fast.compute_mp2_energy num_bf nocc g2e_mo orb_e ehf = Ok E).
Proof.
  change (@Fast.compute_mp2_energy SC) with (@Slow.compute_mp2_energy SC).
  split.
  - intros e [H|H]; eapply compute_mp2_energy_raises; exact H.
  - intros N -> Hn Hg He.
    exists (mp2_xsum (Z.of_nat N) nocc g2e_mo orb_e).
    assert (Slow.compute_mp2_energy (Z.of_nat N) nocc g2e_mo orb_e ehf
            = Ok (mp2_xsum (Z.of_nat N) nocc g2e_mo orb_e)) as Hrun.
    { unfold Slow.compute_mp2_energy.
      rewrite (compute_mp2_energy_run_result (Z.of_nat N) nocc g2e_mo orb_e
                 ehf N N N N Hg); try lia.
      reflexivity. }
    exact (conj Hrun Hrun).
Qed.

End EnergyErrors.

Lemma compute_mp2_energy_no_degeneracy_check_witness :
  exists E,
    Slow.compute_mp2_energy 2 1 g2e_ex orb_degenerate (qz 0) = Ok E /\
    Fast.compute_mp2_energy 2 1 g2e_ex orb_degenerate (qz 0) = Ok E.
Proof.
  apply (proj2 (compute_mp2_energy_no_degeneracy_check (SC := Qc_Scalar)
                  2 1 g2e_ex orb_degenerate (qz 0)) 2%nat).
  - reflexivity.
  - lia.
  - reflexivity.
  - reflexivity.
Defined.

(** C6, as stated, fails.  With orbital energies [0, 10^-30] the one
    denominator is [-2 * 10^-30], and the function returns the finite energy
    [-6.05 * 10^31]; with orbital energies [1, 1] the denominator is zero and
    the function returns a non-finite value.  Neither run raises. *)
Lemma compute_mp2_energy_degenerate_counterexample :
  this (mp2_denominator orb_near 0 0 1 1) = (-1 # (5 * 10 ^ 29))%Q /\
  energy (Slow.compute_mp2_energy 2 1 g2e_ex orb_near (qz 0))
    = Some (Some (inject_Z (- (605 * 10 ^ 29)))) /\
  energy (Fast.compute_mp2_energy 2 1 g2e_ex orb_near (qz 0))
    = Some (Some (inject_Z (- (605 * 10 ^ 29)))) /\
  this (mp2_denominator orb_degenerate 0 0 1 1) = 0%Q /\
  energy (Slow.compute_mp2_energy 2 1 g2e_ex orb_degenerate (qz 0))
    = Some None /\
  energy (Fast.compute_mp2_energy 2 1 g2e_ex orb_degenerate (qz 0))
    = Some None /\
  Slow.compute_mp2_energy 2 1 g2e_ex orb_near (qz 0)
    <> Raise DegenerateOrbitalsError /\
  Slow.compute_mp2_energy 2 1 g2e_ex orb_degenerate (qz 0)
    <> Raise DegenerateOrbitalsError.
Proof.
  refine (conj _ (conj _ (conj _ (conj _ (conj _ (conj _ (conj _ _))))))).
  1-6: vm_compute; reflexivity.
  - intros H. apply (f_equal energy) in H. vm_compute in H. discriminate.
  - intros H. apply (f_equal energy) in H. vm_compute in H. discriminate.
Qed.

(** * The transformation: shapes and exceptions *)

Section TransformErrors.
Context {SC : Scalar}.

Lemma iadd4_raises (t : ndarray4) (i j k l : Z) (v : result F) (e : exn) :
  (forall e', v = Raise e' -> e' = IndexError) ->
  iadd4 t i j k l v = Raise e -> e = IndexError.
Proof.
  intros Hv. unfold iadd4.
  apply (bind_raises (fun e => e = IndexError));
    [intros e'; apply getitem4_raises|]. intros old e1 _.
  apply (bind_raises (fun e => e = IndexError)); [exact Hv|].
  intros x e2 _. apply setitem4_raises.
Qed.

Lemma iadd4_ok_inv (t t' : ndarray4) (i j k l : Z) (v : result F) :
  iadd4 t i j k l v = Ok t' -> exists x, v = Ok x.
Proof.
  unfold iadd4. destruct (getitem4 t i j k l); simpl; [|discriminate].
  destruct v as [x|e]; simpl; [|discriminate]. intros _. now exists x.
Qed.

Ltac raise_loop x :=
  apply (for_each_raises (fun e => e = IndexError)); intros x ?st ?exc _.

Ltac raise_read lem :=
  apply (bind_raises (fun e => e = IndexError));
    [intros ?exc; apply lem|]; intros ?val ?exc _.

Lemma transform_integrals_slow_raises (num_bf : Z) (g2e_ao : ndarray4)
    (coeff_mat : ndarray2) (e : exn) :
  Slow.transform_integrals_slow num_bf g2e_ao coeff_mat = Raise e ->
  e = IndexError.
Proof.
  unfold Slow.transform_integrals_slow.
  raise_loop p. raise_loop q. raise_loop r. raise_loop s.
  raise_loop mu. raise_loop nu. raise_loop rho. raise_loop sigma.
  apply iadd4_raises. intros e'.
  raise_read getitem2_raises. raise_read getitem2_raises.
  raise_read getitem4_raises. raise_read getitem2_raises.
  raise_read getitem2_raises. discriminate.
Qed.

Lemma transform_integrals_nest1_raises (num_bf : Z) (g2e_ao : ndarray4)
    (coeff_mat : ndarray2) (g : ndarray4) (e : exn) :
  Slow.transform_integrals_nest1 num_bf g2e_ao coeff_mat g = Raise e ->
  e = IndexError.
Proof.
  unfold Slow.transform_integrals_nest1.
  raise_loop mu. raise_loop nu. raise_loop rho. raise_loop sigma.
  raise_loop s.
  apply iadd4_raises. intros e'.
  raise_read getitem4_raises. raise_read getitem2_raises. discriminate.
Qed.

Lemma transform_integrals_nest2_raises (num_bf : Z) (g : ndarray4)
    (coeff_mat : ndarray2) (gmo : ndarray4) (e : exn) :
  Slow.transform_integrals_nest2 num_bf g coeff_mat gmo = Raise e ->
  e = IndexError.
Proof.
  unfold Slow.transform_integrals_nest2.
  raise_loop mu. raise_loop nu. raise_loop r. raise_loop s. raise_loop rho.
  apply iadd4_raises. intros e'.
  raise_read getitem4_raises. raise_read getitem2_raises. discriminate.
Qed.

Lemma transform_integrals_nest3_raises (num_bf : Z) (gmo : ndarray4)
    (coeff_mat : ndarray2) (g : ndarray4) (e : exn) :
  Slow.transform_integrals_nest3 num_bf gmo coeff_mat g = Raise e ->
  e = IndexError.
Proof.
  unfold Slow.transform_integrals_nest3.
  raise_loop mu. raise_loop q. raise_loop r. raise_loop s. raise_loop nu.
  apply iadd4_raises. intros e'.
  raise_read getitem4_raises. raise_read getitem2_raises. discriminate.
Qed.

Lemma transform_integrals_nest4_raises (num_bf : Z) (g : ndarray4)
    (coeff_mat : ndarray2) (gmo : ndarray4) (e : exn) :
  Slow.transform_integrals_nest4 num_bf g coeff_mat gmo = Raise e ->
  e = IndexError.
Proof.
  unfold Slow.transform_integrals_nest4.
  raise_loop p. raise_loop q. raise_loop r. raise_loop s. raise_loop mu.
  apply iadd4_raises. intros e'.
  raise_read getitem4_raises. raise_read getitem2_raises. discriminate.
Qed.

Lemma transform_integrals_raises (num_bf : Z) (g2e_ao : ndarray4)
    (coeff_mat : ndarray2) (e : exn) :
  Slow.transform_integrals num_bf g2e_ao coeff_mat = Raise e ->
  e = IndexError.
Proof.
  unfold Slow.transform_integrals.
  apply (bind_raises (fun e => e = IndexError));
    [intros ?; apply transform_integrals_nest1_raises|]. intros g1 ? _.
  apply (bind_raises (fun e => e = IndexError));
    [intros ?; apply transform_integrals_nest2_raises|]. intros g2 ? _.
  apply (bind_raises (fun e => e = IndexError));
    [intros ?; apply transform_integrals_nest3_raises|]. intros g3 ? _.
  apply (bind_raises (fun e => e = IndexError));
    [intros ?; apply transform_integrals_nest4_raises|]. intros g4 ? _.
  discriminate.
Qed.

(** If the loops return, every index below [num_bf] was within every axis. *)
Lemma transform_integrals_slow_ok_inv (num_bf : Z) (g2e_ao : ndarray4)
    (coeff_mat : ndarray2) (n0 n1 n2 n3 m0 m1 : nat) (t : ndarray4) :
  shape4 g2e_ao = (n0, n1, n2, n3) -> shape2 coeff_mat = (m0, m1) ->
  0 < num_bf ->
  Slow.transform_integrals_slow num_bf g2e_ao coeff_mat = Ok t ->
  num_bf <= Z.of_nat n0 /\ num_bf <= Z.of_nat n1 /\
  num_bf <= Z.of_nat n2 /\ num_bf <= Z.of_nat n3 /\
  num_bf <= Z.of_nat m0 /\ num_bf <= Z.of_nat m1.
Proof.
  intros Hg Hc Hpos H. unfold Slow.transform_integrals_slow in H.
  assert (In (num_bf - 1) (range 0 num_bf)) as Hin by (apply in_range; lia).
  destruct (for_each_ok_inv _ _ _ _ H _ Hin) as [?st [?st H1]].
  destruct (for_each_ok_inv _ _ _ _ H1 _ Hin) as [?st [?st H2]].
  destruct (for_each_ok_inv _ _ _ _ H2 _ Hin) as [?st [?st H3]].
  destruct (for_each_ok_inv _ _ _ _ H3 _ Hin) as [?st [?st H4]].
  destruct (for_each_ok_inv _ _ _ _ H4 _ Hin) as [?st [?st H5]].
  destruct (for_each_ok_inv _ _ _ _ H5 _ Hin) as [?st [?st H6]].
  destruct (for_each_ok_inv _ _ _ _ H6 _ Hin) as [?st [?st H7]].
  destruct (for_each_ok_inv _ _ _ _ H7 _ Hin) as [?st [?st H8]].
  apply iadd4_ok_inv in H8. destruct H8 as [v Hv].
  destruct (getitem2 coeff_mat (num_bf - 1) (num_bf - 1)) as [c|] eqn:Ec;
    [|discriminate].
  simpl in Hv.
  destruct (getitem4 g2e_ao (num_bf - 1) (num_bf - 1) (num_bf - 1)
              (num_bf - 1)) as [g|] eqn:Eg; [|discriminate].
  apply (getitem2_ok_inv coeff_mat m0 m1) in Ec; try assumption; try lia.
  apply (getitem4_ok_inv g2e_ao n0 n1 n2 n3) in Eg; try assumption; try lia.
Qed.

Lemma transform_integrals_nest1_ok_inv (num_bf : Z) (g2e_ao : ndarray4)
    (coeff_mat : ndarray2) (n0 n1 n2 n3 m0 m1 : nat) (g t : ndarray4) :
  shape4 g2e_ao = (n0, n1, n2, n3) -> shape2 coeff_mat = (m0, m1) ->
  0 < num_bf ->
  Slow.transform_integrals_nest1 num_bf g2e_ao coeff_mat g = Ok t ->
  num_bf <= Z.of_nat n0 /\ num_bf <= Z.of_nat n1 /\
  num_bf <= Z.of_nat n2 /\ num_bf <= Z.of_nat n3 /\
  num_bf <= Z.of_nat m0 /\ num_bf <= Z.of_nat m1.
Proof.
  intros Hg Hc Hpos H. unfold Slow.transform_integrals_nest1 in H.
  assert (In (num_bf - 1) (range 0 num_bf)) as Hin by (apply in_range; lia).
  destruct (for_each_ok_inv _ _ _ _ H _ Hin) as [?st [?st H1]].
  destruct (for_each_ok_inv _ _ _ _ H1 _ Hin) as [?st [?st H2]].
  destruct (for_each_ok_inv _ _ _ _ H2 _ Hin) as [?st [?st H3]].
  destruct (for_each_ok_inv _ _ _ _ H3 _ Hin) as [?st [?st H4]].
  destruct (for_each_ok_inv _ _ _ _ H4 _ Hin) as [?st [?st H5]].
  apply iadd4_ok_inv in H5. destruct H5 as [v Hv].
  destruct (getitem4 g2e_ao (num_bf - 1) (num_bf - 1) (num_bf - 1)
              (num_bf - 1)) as [y|] eqn:Eg; [|discriminate].
  simpl in Hv.
  destruct (getitem2 coeff_mat (num_bf - 1) (num_bf - 1)) as [c|] eqn:Ec;
    [|discriminate].
  apply (getitem2_ok_inv coeff_mat m0 m1) in Ec; try assumption; try lia.
  apply (getitem4_ok_inv g2e_ao n0 n1 n2 n3) in Eg; try assumption; try lia.
Qed.

Lemma transform_integrals_ok_inv (num_bf : Z) (g2e_ao : ndarray4)
    (coeff_mat : ndarray2) (n0 n1 n2 n3 m0 m1 : nat) (t : ndarray4) :
  shape4 g2e_ao = (n0, n1, n2, n3) -> shape2 coeff_mat = (m0, m1) ->
  0 < num_bf ->
  Slow.transform_integrals num_bf g2e_ao coeff_mat = Ok t ->
  num_bf <= Z.of_nat n0 /\ num_bf <= Z.of_nat n1 /\
  num_bf <= Z.of_nat n2 /\ num_bf <= Z.of_nat n3 /\
  num_bf <= Z.of_nat m0 /\ num_bf <= Z.of_nat m1.
Proof.
  intros Hg Hc Hpos H. unfold Slow.transform_integrals in H.
  destruct (Slow.transform_integrals_nest1 num_bf g2e_ao coeff_mat
              (zeros4 (shape4 g2e_ao))) as [g1|] eqn:E1; [|discriminate].
  eapply transform_integrals_nest1_ok_inv; eassumption.
Qed.

End TransformErrors.

Section ShapeClaims.
Context {SC : Scalar}.

(** C7, as amended.  The loop strategies [transform_integrals_slow] and
    [transform_integrals] never compare the dimension of the coefficient
    matrix with the axes of [g2e_ao] and never fail with [ShapeMismatch]:
    their only exception is the [IndexError] of an element access.  When
    [num_bf] is at most every axis length of [g2e_ao] and of [coeff_mat]
    they return an array of the shape of [g2e_ao], whether or not the
    dimensions of the two arguments agree; when [num_bf > 0] exceeds one of
    these axis lengths they raise [IndexError]. *)
Theorem transform_loops_shape_behaviour (num_bf : Z) (g2e_ao : ndarray4)
    (coeff_mat : ndarray2) (n0 n1 n2 n3 m0 m1 : nat) :
  shape4 g2e_ao = (n0, n1, n2, n3) -> shape2 coeff_mat = (m0, m1) ->
  (forall e,
     Slow.transform_integrals_slow num_bf g2e_ao coeff_mat = Raise e \/
     Slow.transform_integrals num_bf g2e_ao coeff_mat = Raise e ->
     e = IndexError) /\
  (num_bf <= Z.of_nat n0 /\ num_bf <= Z.of_nat n1 /\
   num_bf <= Z.of_nat n2 /\ num_bf <= Z.of_nat n3 /\
   num_bf <= Z.of_nat m0 /\ num_bf <= Z.of_nat m1 ->
   (exists t, Slow.transform_integrals_slow num_bf g2e_ao coeff_mat = Ok t /\
              shape4 t = shape4 g2e_ao) /\
   (exists t, Slow.transform_integrals num_bf g2e_ao coeff_mat = Ok t /\
              shape4 t = shape4 g2e_ao)) /\
  (0 < num_bf ->
   ~ (num_bf <= Z.of_nat n0 /\ num_bf <= Z.of_nat n1 /\
      num_bf <= Z.of_nat n2 /\ num_bf <= Z.of_nat n3 /\
      num_bf <= Z.of_nat m0 /\ num_bf <= Z.of_nat m1) ->
   Slow.transform_integrals_slow num_bf g2e_ao coeff_mat = Raise IndexError /\
   Slow.transform_integrals num_bf g2e_ao coeff_mat = Raise IndexError).
Proof.
  intros Hg Hc. refine (conj _ (conj _ _)).
  - intros e [H|H].
    + eapply transform_integrals_slow_raises; exact H.
    + eapply transform_integrals_raises; exact H.
  - intros [H0 [H1 [H2 [H3 [H4 H5]]]]]. split.
    + destruct (transform_integrals_slow_result num_bf g2e_ao coeff_mat
                  n0 n1 n2 n3 m0 m1 Hg Hc H0 H1 H2 H3 H4 H5)
        as [t [Ht [Hsh _]]].
      exists t. now split.
    + destruct (transform_integrals_result num_bf g2e_ao coeff_mat
                  n0 n1 n2 n3 m0 m1 Hg Hc H0 H1 H2 H3 H4 H5)
        as [t [Ht [Hsh _]]].
      exists t. now split.
  - intros Hpos Hnot. split.
    + destruct (Slow.transform_integrals_slow num_bf g2e_ao coeff_mat)
        as [t|e] eqn:E.
      * exfalso. apply Hnot.
        eapply transform_integrals_slow_ok_inv; eassumption.
      * f_equal. eapply transform_integrals_slow_raises; exact E.
    + destruct (Slow.transform_integrals num_bf g2e_ao coeff_mat)
        as [t|e] eqn:E.
      * exfalso. apply Hnot.
        eapply transform_integrals_ok_inv; eassumption.
      * f_equal. eapply transform_integrals_raises; exact E.
Qed.

End ShapeClaims.

Lemma transform_loops_shape_behaviour_witness :
  (forall e,
     Slow.transform_integrals_slow 2 g2e_wide coeff_ex = Raise e \/
     Slow.transform_integrals 2 g2e_wide coeff_ex = Raise e ->
     e = IndexError) /\
  (2 <= Z.of_nat 3 /\ 2 <= Z.of_nat 3 /\ 2 <= Z.of_nat 3 /\ 2 <= Z.of_nat 3 /\
   2 <= Z.of_nat 2 /\ 2 <= Z.of_nat 2 ->
   (exists t, Slow.transform_integrals_slow 2 g2e_wide coeff_ex = Ok t /\
              shape4 t = shape4 g2e_wide) /\
   (exists t, Slow.transform_integrals 2 g2e_wide coeff_ex = Ok t /\
              shape4 t = shape4 g2e_wide)) /\
  (0 < 2 ->
   ~ (2 <= Z.of_nat 3 /\ 2 <= Z.of_nat 3 /\ 2 <= Z.of_nat 3 /\ 2 <= Z.of_nat 3 /\
      2 <= Z.of_nat 2 /\ 2 <= Z.of_nat 2) ->
   Slow.transform_integrals_slow 2 g2e_wide coeff_ex = Raise IndexError /\
   Slow.transform_integrals 2 g2e_wide coeff_ex = Raise IndexError).
Proof.
  apply (transform_loops_shape_behaviour (SC := Qc_Scalar) 2 g2e_wide coeff_ex
           3 3 3 3 2 2).
  - reflexivity.
  - reflexivity.
Defined.

(** C7, as stated, fails.  The coefficient matrix is 2 x 2.  With a
    3 x 3 x 3 x 3 array both loop strategies return (here: the cell
    [0,0,0,0] of what they return); with a 1 x 1 x 1 x 1 array both raise
    [IndexError].  Neither run fails with [ShapeMismatch]. *)
Lemma transform_shape_mismatch_counterexample :
  shape2 coeff_ex = (2%nat, 2%nat) /\
  shape4 g2e_wide = (3%nat, 3%nat, 3%nat, 3%nat) /\
  cell (Slow.transform_integrals_slow 2 g2e_wide coeff_ex) 0 0 0 0
    = Some 136%Q /\
  cell (Slow.transform_integrals 2 g2e_wide coeff_ex) 0 0 0 0 = Some 10%Q /\
  shape4 g2e_narrow = (1%nat, 1%nat, 1%nat, 1%nat) /\
  Slow.transform_integrals_slow 2 g2e_narrow coeff_ex = Raise IndexError /\
  Slow.transform_integrals 2 g2e_narrow coeff_ex = Raise IndexError /\
  Slow.transform_integrals_slow 2 g2e_wide coeff_ex <> Raise ShapeMismatch /\
  Slow.transform_integrals 2 g2e_wide coeff_ex <> Raise ShapeMismatch /\
  Slow.transform_integrals_slow 2 g2e_narrow coeff_ex <> Raise ShapeMismatch /\
  Slow.transform_integrals 2 g2e_narrow coeff_ex <> Raise ShapeMismatch.
Proof.
  refine (conj _ (conj _ (conj _ (conj _ (conj _ (conj _ (conj _
            (conj _ (conj _ (conj _ _)))))))))).
  1-7: vm_compute; reflexivity.
  - intros H. apply transform_integrals_slow_raises in H. discriminate.
  - intros H. apply transform_integrals_raises in H. discriminate.
  - intros H. apply transform_integrals_slow_raises in H. discriminate.
  - intros H. apply transform_integrals_raises in H. discriminate.
Qed.

(** * The transformation: closed forms *)

Section ClosedForms.
Context {SC : Scalar}.
Add Field scalar_field_closed : Ffield.

Local Open Scope F_scope.

(** The naive loop computes the defining contraction of the transposed
    coefficient matrix. *)
Lemma naive_value_transpose (N : nat) (g2e_ao : ndarray4) (coeff_mat : ndarray2)
    (p q r s : Z) :
  naive_value (Z.of_nat N) g2e_ao coeff_mat p q r s
  = contraction N g2e_ao (transpose coeff_mat) p q r s.
Proof.
  unfold naive_value, contraction, sum_n.
  apply sum_range_ext; intros mu _. apply sum_range_ext; intros nu _.
  apply sum_range_ext; intros rho _. apply sum_range_ext; intros sigma _.
  simpl. ring.
Qed.

(** So it computes the defining contraction when the matrix is symmetric. *)
Lemma naive_value_symmetric (N : nat) (g2e_ao : ndarray4) (coeff_mat : ndarray2)
    (p q r s : Z) :
  (forall i j, data2 coeff_mat i j = data2 coeff_mat j i) ->
  naive_value (Z.of_nat N) g2e_ao coeff_mat p q r s
  = contraction N g2e_ao coeff_mat p q r s.
Proof.
  intros Hsym. unfold naive_value, contraction, sum_n.
  apply sum_range_ext; intros mu _. apply sum_range_ext; intros nu _.
  apply sum_range_ext; intros rho _. apply sum_range_ext; intros sigma _.
  rewrite (Hsym p mu), (Hsym q nu), (Hsym r rho), (Hsym s sigma). ring.
Qed.

(** X12.  The einsum of the slow file computes the defining contraction of
    the module's array [g2e_ao], whatever its argument [ge2_ao] is. *)
Lemma transform_integrals_einsum_slow_result (N : nat)
    (g2e_ao ge2_ao : ndarray4) (coeff_mat : ndarray2) :
  shape4 g2e_ao = (N, N, N, N) -> shape2 coeff_mat = (N, N) ->
  exists g2e_mo,
    Slow.transform_integrals_einsum g2e_ao ge2_ao coeff_mat = Ok g2e_mo /\
    shape4 g2e_mo = (N, N, N, N) /\
    forall p q r s,
      data4 g2e_mo p q r s = contraction N g2e_ao coeff_mat p q r s.
Proof.
  intros Hg Hc. unfold Slow.transform_integrals_einsum, einsum_PQRS_Pp_Qq_Rr_Ss.
  rewrite Hg, Hc. rewrite !Nat.eqb_refl. simpl.
  eexists. split; [reflexivity|]. split; [reflexivity|].
  intros p q r s. simpl. unfold contraction, sum_n.
  apply sum_range_ext; intros mu _. apply sum_range_ext; intros nu _.
  apply sum_range_ext; intros rho _. apply sum_range_ext; intros sigma _.
  ring.
Qed.

(** X18.  The einsum of the fast file transforms the last axis of the
    module's array [g2e_ao] only, whatever its argument [ge2_ao] is. *)
Lemma transform_integrals_einsum_fast_result (N : nat)
    (g2e_ao ge2_ao : ndarray4) (coeff_mat : ndarray2) :
  shape4 g2e_ao = (N, N, N, N) -> shape2 coeff_mat = (N, N) ->
  exists g2e_mo,
    Fast.transform_integrals_einsum g2e_ao ge2_ao coeff_mat = Ok g2e_mo /\
    shape4 g2e_mo = (N, N, N, N) /\
    forall p q r s,
      data4 g2e_mo p q r s = last_axis_value N g2e_ao coeff_mat p q r s.
Proof.
  intros Hg Hc. unfold Fast.transform_integrals_einsum.
  unfold einsum_PQRS_Pp, einsum_pQRS_Qq, einsum_pqRS_Rr, einsum_pqrS_Ss.
  rewrite Hg, Hc. rewrite !Nat.eqb_refl. simpl.
  eexists. split; [reflexivity|]. split; [reflexivity|].
  intros p q r s. reflexivity.
Qed.

Lemma eye_term (g : F) (p q r s mu nu rho sigma : Z) :
  (if (p =? mu)%Z then F1 else F0) * (if (q =? nu)%Z then F1 else F0) * g
  * (if (r =? rho)%Z then F1 else F0) * (if (s =? sigma)%Z then F1 else F0)
  = if same_cell mu nu rho sigma p q r s then g else F0.
Proof.
  unfold same_cell.
  destruct (p =? mu)%Z, (q =? nu)%Z, (r =? rho)%Z, (s =? sigma)%Z; simpl; ring.
Qed.

(** X3.  With the identity matrix the naive loop returns the cells of its
    input. *)
Lemma transform_integrals_slow_identity (N : nat) (g2e_ao : ndarray4) :
  shape4 g2e_ao = (N, N, N, N) ->
  exists g2e_mo,
    Slow.transform_integrals_slow (Z.of_nat N) g2e_ao (eye N) = Ok g2e_mo /\
    shape4 g2e_mo = shape4 g2e_ao /\
    forall p q r s,
      (0 <= p < Z.of_nat N)%Z -> (0 <= q < Z.of_nat N)%Z ->
      (0 <= r < Z.of_nat N)%Z -> (0 <= s < Z.of_nat N)%Z ->
      data4 g2e_mo p q r s = data4 g2e_ao p q r s.
Proof.
  intros Hg.
  destruct (transform_integrals_slow_result (Z.of_nat N) g2e_ao (eye N)
              N N N N N N Hg eq_refl) as [t [Ht [Hsh Hd]]]; try lia.
  exists t. split; [exact Ht|]. split; [exact Hsh|].
  intros p q r s Hp Hq Hr Hs. rewrite Hd.
  rewrite cell_in_bounds_true by assumption.
  rewrite (sum_range_ext _ _ _ (fun mu =>
    sum_range 0 (Z.of_nat N) (fun nu => sum_range 0 (Z.of_nat N) (fun rho =>
    sum_range 0 (Z.of_nat N) (fun sigma =>
      if same_cell mu nu rho sigma p q r s
      then data4 g2e_ao mu nu rho sigma else F0))))).
  - rewrite sum_range_cell. now rewrite cell_in_bounds_true by assumption.
  - intros mu _. apply sum_range_ext; intros nu _.
    apply sum_range_ext; intros rho _. apply sum_range_ext; intros sigma _.
    simpl. apply eye_term.
Qed.

Lemma sum_range_pick (n k : Z) (f : Z -> F) :
  (0 <= k < n)%Z ->
  sum_range 0 n (fun x => f x * (if (x =? k)%Z then F1 else F0)) = f k.
Proof.
  intros Hk.
  rewrite (sum_range_ext _ _ _ (fun x =>
    if true && (k =? x)%Z then f x else F0)).
  - rewrite sum_range_select. unfold in_bounds. simpl.
    destruct (0 <=? k)%Z eqn:E1; [|lia].
    destruct (k <? n)%Z eqn:E2; [reflexivity|lia].
  - intros x _. simpl. rewrite (Z.eqb_sym k x).
    destruct (x =? k)%Z; ring.
Qed.

(** X11.  With the identity matrix the factored loops return, at
    [(p,q,r,s)], the sum of the input over its last axis when [r = s], and
    zero otherwise. *)
Lemma transform_integrals_identity (N : nat) (g2e_ao : ndarray4) :
  shape4 g2e_ao = (N, N, N, N) ->
  exists gmo,
    Slow.transform_integrals (Z.of_nat N) g2e_ao (eye N) = Ok gmo /\
    shape4 gmo = shape4 g2e_ao /\
    forall p q r s,
      (0 <= p < Z.of_nat N)%Z -> (0 <= q < Z.of_nat N)%Z ->
      (0 <= r < Z.of_nat N)%Z -> (0 <= s < Z.of_nat N)%Z ->
      data4 gmo p q r s =
        if (r =? s)%Z
        then sum_range 0 (Z.of_nat N) (fun sigma => data4 g2e_ao p q r sigma)
        else F0.
Proof.
  intros Hg.
  destruct (transform_integrals_result (Z.of_nat N) g2e_ao (eye N)
              N N N N N N Hg eq_refl) as [t [Ht [Hsh Hd]]]; try lia.
  exists t. split; [exact Ht|]. split; [exact Hsh|].
  intros p q r s Hp Hq Hr Hs. rewrite Hd.
  rewrite cell_in_bounds_true by assumption.
  unfold factored_value. simpl data2.
  rewrite sum_range_pick by assumption.
  rewrite sum_range_pick by assumption.
  rewrite sum_range_pick by assumption.
  unfold nest1_value. simpl data2.
  destruct (r =? s)%Z.
  - apply sum_range_ext; intros sigma _. ring.
  - rewrite (sum_range_ext _ _ _ (fun _ => F0)).
    + apply sum_over_zero.
    + intros sigma _. ring.
Qed.

End ClosedForms.

(** * The transformation: what the strategies return *)

(** C1.  At [N = 2], [C = [[1,1],[0,1]]] and
    [g2e_ao[i,j,k,l] = 1 + i + 2j + 4k + 8l] the defining contraction has
    the value 6 at [(p,q,r,s) = (0,0,1,0)].  There the naive loop returns
    84, the factored loops return 10, and the einsum of the fast file (with
    the module's [g2e_ao] equal to the argument) returns 5: none of the
    three strategies satisfies the defining contraction. *)
Theorem transform_strategies_vs_contraction :
  shape4 g2e_ex = (2%nat, 2%nat, 2%nat, 2%nat) /\
  shape2 coeff_ex = (2%nat, 2%nat) /\
  this (contraction 2 g2e_ex coeff_ex 0 0 1 0) = 6%Q /\
  cell (Slow.transform_integrals_slow 2 g2e_ex coeff_ex) 0 0 1 0
    = Some 84%Q /\
  cell (Slow.transform_integrals 2 g2e_ex coeff_ex) 0 0 1 0 = Some 10%Q /\
  cell (Fast.transform_integrals_einsum g2e_ex g2e_ex coeff_ex) 0 0 1 0
    = Some 5%Q.
Proof.
  refine (conj _ (conj _ (conj _ (conj _ (conj _ _)))));
    vm_compute; reflexivity.
Qed.

(** C2.  On the same input (N = 2) the strategies return different arrays:
    at the cell [(0,0,1,0)] the naive loop has 84, the factored loops 10,
    the einsum of the slow file 6 and the einsum of the fast file 5. *)
Theorem transform_strategies_disagree :
  cell (Slow.transform_integrals_slow 2 g2e_ex coeff_ex) 0 0 1 0
    <> cell (Slow.transform_integrals 2 g2e_ex coeff_ex) 0 0 1 0 /\
  cell (Slow.transform_integrals_slow 2 g2e_ex coeff_ex) 0 0 1 0
    <> cell (Slow.transform_integrals_einsum g2e_ex g2e_ex coeff_ex) 0 0 1 0 /\
  cell (Slow.transform_integrals_slow 2 g2e_ex coeff_ex) 0 0 1 0
    <> cell (Fast.transform_integrals_einsum g2e_ex g2e_ex coeff_ex) 0 0 1 0 /\
  cell (Slow.transform_integrals 2 g2e_ex coeff_ex) 0 0 1 0
    <> cell (Slow.transform_integrals_einsum g2e_ex g2e_ex coeff_ex) 0 0 1 0 /\
  cell (Slow.transform_integrals 2 g2e_ex coeff_ex) 0 0 1 0
    <> cell (Fast.transform_integrals_einsum g2e_ex g2e_ex coeff_ex) 0 0 1 0 /\
  cell (Slow.transform_integrals_einsum g2e_ex g2e_ex coeff_ex) 0 0 1 0
    <> cell (Fast.transform_integrals_einsum g2e_ex g2e_ex coeff_ex) 0 0 1 0.
Proof.
  refine (conj _ (conj _ (conj _ (conj _ (conj _ _)))));
    vm_compute; discriminate.
Qed.

(** C3.  On the same input the first intermediate array of the factored
    loops has 10 at [(mu,nu,rho,s) = (0,0,0,0)], where the first quarter
    transformation [sum_sigma g2e_ao[0,0,0,sigma] * C[sigma,0]] is 1: the
    loop multiplies by [C[rho,s]], not by [C[sigma,s]]. *)
Theorem transform_integrals_first_contraction :
  cell (Slow.transform_integrals_nest1 2 g2e_ex coeff_ex
          (zeros4 (shape4 g2e_ex))) 0 0 0 0 = Some 10%Q /\
  this (first_quarter 2 g2e_ex coeff_ex 0 0 0 0) = 1%Q /\
  this (nest1_value 2 g2e_ex coeff_ex 0 0 0 0) = 10%Q.
Proof.
  refine (conj _ (conj _ _)); vm_compute; reflexivity.
Qed.

(** C4.  The einsum functions do not use their first argument: the array
    they contract is the module's variable [g2e_ao].  Two calls with the
    same arguments [(g2e_ex, coeff_ex)] return different arrays when the
    module's variable differs (cell [(0,0,0,0)]: 1 against 7), and two calls
    with different first arguments return the same. *)
Theorem transform_integrals_einsum_reads_global :
  cell (Fast.transform_integrals_einsum g2e_ex g2e_ex coeff_ex) 0 0 0 0
    = Some 1%Q /\
  cell (Fast.transform_integrals_einsum g2e_other g2e_ex coeff_ex) 0 0 0 0
    = Some 7%Q /\
  cell (Slow.transform_integrals_einsum g2e_ex g2e_ex coeff_ex) 0 0 0 0
    = Some 1%Q /\
  cell (Slow.transform_integrals_einsum g2e_other g2e_ex coeff_ex) 0 0 0 0
    = Some 7%Q /\
  (forall (g2e_ao ge2_ao ge2_ao' : ndarray4) (coeff_mat : ndarray2),
     Fast.transform_integrals_einsum g2e_ao ge2_ao coeff_mat
     = Fast.transform_integrals_einsum g2e_ao ge2_ao' coeff_mat) /\
  (forall (g2e_ao ge2_ao ge2_ao' : ndarray4) (coeff_mat : ndarray2),
     Slow.transform_integrals_einsum g2e_ao ge2_ao coeff_mat
     = Slow.transform_integrals_einsum g2e_ao ge2_ao' coeff_mat).
Proof.
  refine (conj _ (conj _ (conj _ (conj _ (conj _ _))))).
  1-4: vm_compute; reflexivity.
  - intros. reflexivity.
  - intros. reflexivity.
Qed.

(** C9.  With the 2 x 2 identity matrix the factored loops do not return
    their input: at the cell [(0,0,0,0)] the input has 1 and the result 10,
    at [(0,0,0,1)] the input has 9 and the result 0.  The naive loop
    returns the input's cells. *)
Theorem transform_integrals_identity_matrix :
  cell (Ok g2e_ex) 0 0 0 0 = Some 1%Q /\
  cell (Slow.transform_integrals 2 g2e_ex (eye 2)) 0 0 0 0 = Some 10%Q /\
  cell (Ok g2e_ex) 0 0 0 1 = Some 9%Q /\
  cell (Slow.transform_integrals 2 g2e_ex (eye 2)) 0 0 0 1 = Some 0%Q /\
  cell (Slow.transform_integrals_slow 2 g2e_ex (eye 2)) 0 0 0 0 = Some 1%Q /\
  cell (Slow.transform_integrals_slow 2 g2e_ex (eye 2)) 0 0 0 1 = Some 9%Q.
Proof.
  refine (conj _ (conj _ (conj _ (conj _ (conj _ _)))));
    vm_compute; reflexivity.
Qed.

(** * Further properties of the naive loop *)

Section NaiveLoopProperties.
Context {SC : Scalar}.
Add Field scalar_field_naive_props : Ffield.

Local Open Scope F_scope.

Lemma sum_range_ext_scale (lo hi : Z) (c : F) (f g : Z -> F) :
  (forall x, (lo <= x < hi)%Z -> f x = c * g x) ->
  sum_range lo hi f = c * sum_range lo hi g.
Proof.
  intros H. rewrite (sum_range_ext lo hi f (fun x => c * g x) H).
  apply sum_over_scale_l.
Qed.

Lemma sum_range_swap_args (lo hi : Z) (f : Z -> Z -> F) :
  sum_range lo hi (fun x => sum_range lo hi (fun y => f x y))
  = sum_range lo hi (fun x => sum_range lo hi (fun y => f y x)).
Proof. unfold sum_range. apply sum_over_swap. Qed.

(** X1.  For an N x N x N x N array and an N x N matrix the naive loop
    returns an N x N x N x N array whose cells are the defining contraction
    taken with the transposed matrix:
    [sum C[p,mu] C[q,nu] C[r,rho] C[s,sigma] g2e_ao[mu,nu,rho,sigma]]. *)
Theorem transform_integrals_slow_transposed (N : nat) (g2e_ao : ndarray4)
    (coeff_mat : ndarray2) :
  shape4 g2e_ao = (N, N, N, N) -> shape2 coeff_mat = (N, N) ->
  exists g2e_mo,
    Slow.transform_integrals_slow (Z.of_nat N) g2e_ao coeff_mat = Ok g2e_mo /\
    shape4 g2e_mo = (N, N, N, N) /\
    forall p q r s,
      (0 <= p < Z.of_nat N)%Z -> (0 <= q < Z.of_nat N)%Z ->
      (0 <= r < Z.of_nat N)%Z -> (0 <= s < Z.of_nat N)%Z ->
      data4 g2e_mo p q r s
      = contraction N g2e_ao (transpose coeff_mat) p q r s.
Proof.
  intros Hg Hc.
  destruct (transform_integrals_slow_result (Z.of_nat N) g2e_ao coeff_mat
              N N N N N N Hg Hc) as [t [Ht [Hsh Hd]]]; try lia.
  exists t. split; [exact Ht|]. split; [congruence|].
  intros p q r s Hp Hq Hr Hs. rewrite Hd.
  rewrite cell_in_bounds_true by assumption.
  apply naive_value_transpose.
Qed.

(** X2.  When the coefficient matrix is symmetric the naive loop returns
    the defining contraction itself. *)
Theorem transform_integrals_slow_symmetric (N : nat) (g2e_ao : ndarray4)
    (coeff_mat : ndarray2) :
  shape4 g2e_ao = (N, N, N, N) -> shape2 coeff_mat = (N, N) ->
  (forall i j, (0 <= i < Z.of_nat N)%Z -> (0 <= j < Z.of_nat N)%Z ->
     data2 coeff_mat i j = data2 coeff_mat j i) ->
  exists g2e_mo,
    Slow.transform_integrals_slow (Z.of_nat N) g2e_ao coeff_mat = Ok g2e_mo /\
    forall p q r s,
      (0 <= p < Z.of_nat N)%Z -> (0 <= q < Z.of_nat N)%Z ->
      (0 <= r < Z.of_nat N)%Z -> (0 <= s < Z.of_nat N)%Z ->
      data4 g2e_mo p q r s = contraction N g2e_ao coeff_mat p q r s.
Proof.
  intros Hg Hc Hsym.
  destruct (transform_integrals_slow_result (Z.of_nat N) g2e_ao coeff_mat
              N N N N N N Hg Hc) as [t [Ht [Hsh Hd]]]; try lia.
  exists t. split; [exact Ht|].
  intros p q r s Hp Hq Hr Hs. rewrite Hd.
  rewrite cell_in_bounds_true by assumption.
  unfold contraction, sum_n.
  apply sum_range_ext; intros mu Hmu. apply sum_range_ext; intros nu Hnu.
  apply sum_range_ext; intros rho Hrho. apply sum_range_ext; intros sigma Hsigma.
  rewrite (Hsym p mu), (Hsym q nu), (Hsym r rho), (Hsym s sigma) by assumption.
  ring.
Qed.

(** X4.  The naive loop is homogeneous in the integrals: for the array
    [c * g2e_ao] it returns [c] times what it returns for [g2e_ao], cell by
    cell. *)
Theorem transform_integrals_slow_scale (N : nat) (c : F) (g2e_ao : ndarray4)
    (coeff_mat : ndarray2) :
  shape4 g2e_ao = (N, N, N, N) -> shape2 coeff_mat = (N, N) ->
  exists g2e_mo g2e_mo',
    Slow.transform_integrals_slow (Z.of_nat N) g2e_ao coeff_mat = Ok g2e_mo /\
    Slow.transform_integrals_slow (Z.of_nat N) (scale4 c g2e_ao) coeff_mat
      = Ok g2e_mo' /\
    forall p q r s, data4 g2e_mo' p q r s = c * data4 g2e_mo p q r s.
Proof.
  intros Hg Hc.
  destruct (transform_integrals_slow_result (Z.of_nat N) g2e_ao coeff_mat
              N N N N N N Hg Hc) as [t [Ht [Hsh Hd]]]; try lia.
  destruct (transform_integrals_slow_result (Z.of_nat N) (scale4 c g2e_ao)
              coeff_mat N N N N N N Hg Hc) as [t' [Ht' [Hsh' Hd']]]; try lia.
  exists t, t'. split; [exact Ht|]. split; [exact Ht'|].
  intros p q r s. rewrite Hd, Hd'.
  destruct (cell_in_bounds (Z.of_nat N) p q r s); [|ring].
  apply sum_range_ext_scale; intros mu _.
  apply sum_range_ext_scale; intros nu _.
  apply sum_range_ext_scale; intros rho _.
  apply sum_range_ext_scale; intros sigma _.
  simpl. ring.
Qed.

(** X5.  The naive loop keeps the pair symmetry of the integrals: if
    [g2e_ao[mu,nu,rho,sigma] = g2e_ao[nu,mu,sigma,rho]] for all indices,
    then [g2e_mo[p,q,r,s] = g2e_mo[q,p,s,r]] for all indices. *)
Theorem transform_integrals_slow_pair_symmetry (N : nat) (g2e_ao : ndarray4)
    (coeff_mat : ndarray2) :
  shape4 g2e_ao = (N, N, N, N) -> shape2 coeff_mat = (N, N) ->
  (forall mu nu rho sigma,
     (0 <= mu < Z.of_nat N)%Z -> (0 <= nu < Z.of_nat N)%Z ->
     (0 <= rho < Z.of_nat N)%Z -> (0 <= sigma < Z.of_nat N)%Z ->
     data4 g2e_ao mu nu rho sigma = data4 g2e_ao nu mu sigma rho) ->
  exists g2e_mo,
    Slow.transform_integrals_slow (Z.of_nat N) g2e_ao coeff_mat = Ok g2e_mo /\
    forall p q r s,
      (0 <= p < Z.of_nat N)%Z -> (0 <= q < Z.of_nat N)%Z ->
      (0 <= r < Z.of_nat N)%Z -> (0 <= s < Z.of_nat N)%Z ->
      data4 g2e_mo p q r s = data4 g2e_mo q p s r.
Proof.
  intros Hg Hc Hsym.
  destruct (transform_integrals_slow_result (Z.of_nat N) g2e_ao coeff_mat
              N N N N N N Hg Hc) as [t [Ht [Hsh Hd]]]; try lia.
  exists t. split; [exact Ht|].
  intros p q r s Hp Hq Hr Hs. rewrite !Hd.
  rewrite !cell_in_bounds_true by assumption.
  symmetry.
  rewrite sum_range_swap_args.
  apply sum_range_ext; intros mu Hmu. apply sum_range_ext; intros nu Hnu.
  rewrite sum_range_swap_args.
  apply sum_range_ext; intros rho Hrho. apply sum_range_ext; intros sigma Hsigma.
  rewrite (Hsym mu nu rho sigma) by assumption. ring.
Qed.

End NaiveLoopProperties.

Lemma transform_integrals_slow_transposed_witness :
  exists g2e_mo,
    Slow.transform_integrals_slow (Z.of_nat 2) g2e_ex coeff_ex = Ok g2e_mo /\
    shape4 g2e_mo = (2%nat, 2%nat, 2%nat, 2%nat) /\
    forall p q r s,
      0 <= p < Z.of_nat 2 -> 0 <= q < Z.of_nat 2 ->
      0 <= r < Z.of_nat 2 -> 0 <= s < Z.of_nat 2 ->
      data4 g2e_mo p q r s = contraction 2 g2e_ex (transpose coeff_ex) p q r s.
Proof.
  apply (transform_integrals_slow_transposed (SC := Qc_Scalar) 2 g2e_ex coeff_ex);
    reflexivity.
Defined.

Lemma transform_integrals_slow_symmetric_witness :
  exists g2e_mo,
    Slow.transform_integrals_slow (Z.of_nat 2) g2e_ex coeff_sym = Ok g2e_mo /\
    forall p q r s,
      0 <= p < Z.of_nat 2 -> 0 <= q < Z.of_nat 2 ->
      0 <= r < Z.of_nat 2 -> 0 <= s < Z.of_nat 2 ->
      data4 g2e_mo p q r s = contraction 2 g2e_ex coeff_sym p q r s.
Proof.
  apply (transform_integrals_slow_symmetric (SC := Qc_Scalar) 2 g2e_ex coeff_sym).
  - reflexivity.
  - reflexivity.
  - intros i j Hi Hj.
    assert (i = 0 \/ i = 1) as [-> | ->] by lia;
      assert (j = 0 \/ j = 1) as [-> | ->] by lia; reflexivity.
Defined.

Lemma transform_integrals_slow_identity_witness :
  exists g2e_mo,
    Slow.transform_integrals_slow (Z.of_nat 2) g2e_ex (eye 2) = Ok g2e_mo /\
    shape4 g2e_mo = shape4 g2e_ex /\
    forall p q r s,
      0 <= p < Z.of_nat 2 -> 0 <= q < Z.of_nat 2 ->
      0 <= r < Z.of_nat 2 -> 0 <= s < Z.of_nat 2 ->
      data4 g2e_mo p q r s = data4 g2e_ex p q r s.
Proof.
  apply (transform_integrals_slow_identity (SC := Qc_Scalar) 2 g2e_ex).
  reflexivity.
Defined.

Lemma transform_integrals_slow_scale_witness :
  exists g2e_mo g2e_mo',
    Slow.transform_integrals_slow (Z.of_nat 2) g2e_ex coeff_ex = Ok g2e_mo /\
    Slow.transform_integrals_slow (Z.of_nat 2) (scale4 (qz 3) g2e_ex) coeff_ex
      = Ok g2e_mo' /\
    forall p q r s,
      data4 g2e_mo' p q r s = Fmul (qz 3) (data4 g2e_mo p q r s).
Proof.
  apply (transform_integrals_slow_scale (SC := Qc_Scalar) 2 (qz 3)
           g2e_ex coeff_ex); reflexivity.
Defined.

Lemma transform_integrals_slow_pair_symmetry_witness :
  exists g2e_mo,
    Slow.transform_integrals_slow (Z.of_nat 2) g2e_sym coeff_ex = Ok g2e_mo /\
    forall p q r s,
      0 <= p < Z.of_nat 2 -> 0 <= q < Z.of_nat 2 ->
      0 <= r < Z.of_nat 2 -> 0 <= s < Z.of_nat 2 ->
      data4 g2e_mo p q r s = data4 g2e_mo q p s r.
Proof.
  apply (transform_integrals_slow_pair_symmetry (SC := Qc_Scalar) 2
           g2e_sym coeff_ex).
  - reflexivity.
  - reflexivity.
  - intros mu nu rho sigma Hmu Hnu Hrho Hsigma.
    unfold g2e_sym, array4_of. cbn [data4]. f_equal. lia.
Defined.

(** * Further properties of the loops *)

Section LoopProperties.
Context {SC : Scalar}.
Add Field scalar_field_loop_props : Ffield.

Local Open Scope F_scope.

(** X6.  With [num_bf <= 0] no loop body runs: both loop strategies return
    the zero array of the shape of [g2e_ao], whatever the shapes and the
    contents of their arguments are. *)
Theorem transform_loops_no_basis_function (num_bf : Z) (g2e_ao : ndarray4)
    (coeff_mat : ndarray2) :
  (num_bf <= 0)%Z ->
  Slow.transform_integrals_slow num_bf g2e_ao coeff_mat
    = Ok (zeros4 (shape4 g2e_ao)) /\
  Slow.transform_integrals num_bf g2e_ao coeff_mat
    = Ok (zeros4 (shape4 g2e_ao)).
Proof.
  intros H. unfold Slow.transform_integrals_slow, Slow.transform_integrals,
    Slow.transform_integrals_nest1, Slow.transform_integrals_nest2,
    Slow.transform_integrals_nest3, Slow.transform_integrals_nest4.
  rewrite (range_empty 0 num_bf) by assumption. split; reflexivity.
Qed.

(** X7.  When [num_bf] is smaller than the axes, both loop strategies fill
    the leading block only: every cell with an index outside
    [0 <= . < num_bf] is zero in the result. *)
Theorem transform_loops_leading_block (num_bf : Z) (g2e_ao : ndarray4)
    (coeff_mat : ndarray2) (n0 n1 n2 n3 m0 m1 : nat) :
  shape4 g2e_ao = (n0, n1, n2, n3) -> shape2 coeff_mat = (m0, m1) ->
  (num_bf <= Z.of_nat n0)%Z -> (num_bf <= Z.of_nat n1)%Z ->
  (num_bf <= Z.of_nat n2)%Z -> (num_bf <= Z.of_nat n3)%Z ->
  (num_bf <= Z.of_nat m0)%Z -> (num_bf <= Z.of_nat m1)%Z ->
  exists t t',
    Slow.transform_integrals_slow num_bf g2e_ao coeff_mat = Ok t /\
    Slow.transform_integrals num_bf g2e_ao coeff_mat = Ok t' /\
    forall p q r s,
      ~ ((0 <= p < num_bf)%Z /\ (0 <= q < num_bf)%Z /\
         (0 <= r < num_bf)%Z /\ (0 <= s < num_bf)%Z) ->
      data4 t p q r s = F0 /\ data4 t' p q r s = F0.
Proof.
  intros Hg Hc H0 H1 H2 H3 H4 H5.
  destruct (transform_integrals_slow_result num_bf g2e_ao coeff_mat
              n0 n1 n2 n3 m0 m1 Hg Hc H0 H1 H2 H3 H4 H5) as [t [Ht [_ Hd]]].
  destruct (transform_integrals_result num_bf g2e_ao coeff_mat
              n0 n1 n2 n3 m0 m1 Hg Hc H0 H1 H2 H3 H4 H5) as [t' [Ht' [_ Hd']]].
  exists t, t'. split; [exact Ht|]. split; [exact Ht'|].
  intros p q r s Hout. rewrite Hd, Hd'.
  destruct (cell_in_bounds num_bf p q r s) eqn:E; [|split; reflexivity].
  apply cell_in_bounds_iff in E. contradiction.
Qed.

Lemma factored_value_flat (num_bf : Z) (g2e_ao : ndarray4)
    (coeff_mat : ndarray2) (p q r s : Z) :
  factored_value num_bf g2e_ao coeff_mat p q r s
  = factored_flat num_bf g2e_ao coeff_mat p q r s.
Proof.
  unfold factored_value, factored_flat, nest1_value.
  apply sum_range_ext; intros mu _.
  unfold sum_range at 1. rewrite <- sum_over_scale_r.
  apply sum_range_ext; intros nu _.
  unfold sum_range at 1. rewrite <- sum_over_scale_r.
  unfold sum_range at 1. rewrite <- sum_over_scale_r.
  apply sum_range_ext; intros rho _.
  unfold sum_range at 1. rewrite <- !sum_over_scale_r.
  apply sum_range_ext; intros sigma _. ring.
Qed.

(** X8.  For an N x N x N x N array and an N x N matrix the factored loops
    return the array with the cells
    [sum C[mu,p] C[nu,q] C[rho,r] C[rho,s] g2e_ao[mu,nu,rho,sigma]]:
    the fourth factor is indexed by [rho], not by the summed [sigma]. *)
Theorem transform_integrals_closed_form (N : nat) (g2e_ao : ndarray4)
    (coeff_mat : ndarray2) :
  shape4 g2e_ao = (N, N, N, N) -> shape2 coeff_mat = (N, N) ->
  exists gmo,
    Slow.transform_integrals (Z.of_nat N) g2e_ao coeff_mat = Ok gmo /\
    shape4 gmo = (N, N, N, N) /\
    forall p q r s,
      (0 <= p < Z.of_nat N)%Z -> (0 <= q < Z.of_nat N)%Z ->
      (0 <= r < Z.of_nat N)%Z -> (0 <= s < Z.of_nat N)%Z ->
      data4 gmo p q r s = factored_flat (Z.of_nat N) g2e_ao coeff_mat p q r s.
Proof.
  intros Hg Hc.
  destruct (transform_integrals_result (Z.of_nat N) g2e_ao coeff_mat
              N N N N N N Hg Hc) as [t [Ht [Hsh Hd]]]; try lia.
  exists t. split; [exact Ht|]. split; [congruence|].
  intros p q r s Hp Hq Hr Hs. rewrite Hd.
  rewrite cell_in_bounds_true by assumption.
  apply factored_value_flat.
Qed.

(** X9.  What the factored loops return is symmetric in its last two
    indices, whatever the integrals are:
    [gmo[p,q,r,s] = gmo[p,q,s,r]]. *)
Theorem transform_integrals_last_two_symmetric (N : nat) (g2e_ao : ndarray4)
    (coeff_mat : ndarray2) :
  shape4 g2e_ao = (N, N, N, N) -> shape2 coeff_mat = (N, N) ->
  exists gmo,
    Slow.transform_integrals (Z.of_nat N) g2e_ao coeff_mat = Ok gmo /\
    forall p q r s, data4 gmo p q r s = data4 gmo p q s r.
Proof.
  intros Hg Hc.
  destruct (transform_integrals_result (Z.of_nat N) g2e_ao coeff_mat
              N N N N N N Hg Hc) as [t [Ht [Hsh Hd]]]; try lia.
  exists t. split; [exact Ht|].
  intros p q r s. rewrite !Hd.
  assert (cell_in_bounds (Z.of_nat N) p q s r
          = cell_in_bounds (Z.of_nat N) p q r s) as ->.
  { unfold cell_in_bounds.
    destruct (in_bounds 0 (Z.of_nat N) p), (in_bounds 0 (Z.of_nat N) q),
      (in_bounds 0 (Z.of_nat N) r), (in_bounds 0 (Z.of_nat N) s); reflexivity. }
  destruct (cell_in_bounds (Z.of_nat N) p q r s); [|reflexivity].
  rewrite !factored_value_flat. unfold factored_flat.
  apply sum_range_ext; intros mu _. apply sum_range_ext; intros nu _.
  apply sum_range_ext; intros rho _. apply sum_range_ext; intros sigma _.
  ring.
Qed.

(** X10.  The factored loops are homogeneous in the integrals: for the
    array [c * g2e_ao] they return [c] times what they return for
    [g2e_ao], cell by cell. *)
Theorem transform_integrals_scale (N : nat) (c : F) (g2e_ao : ndarray4)
    (coeff_mat : ndarray2) :
  shape4 g2e_ao = (N, N, N, N) -> shape2 coeff_mat = (N, N) ->
  exists gmo gmo',
    Slow.transform_integrals (Z.of_nat N) g2e_ao coeff_mat = Ok gmo /\
    Slow.transform_integrals (Z.of_nat N) (scale4 c g2e_ao) coeff_mat
      = Ok gmo' /\
    forall p q r s, data4 gmo' p q r s = c * data4 gmo p q r s.
Proof.
  intros Hg Hc.
  destruct (transform_integrals_result (Z.of_nat N) g2e_ao coeff_mat
              N N N N N N Hg Hc) as [t [Ht [Hsh Hd]]]; try lia.
  destruct (transform_integrals_result (Z.of_nat N) (scale4 c g2e_ao)
              coeff_mat N N N N N N Hg Hc) as [t' [Ht' [Hsh' Hd']]]; try lia.
  exists t, t'. split; [exact Ht|]. split; [exact Ht'|].
  intros p q r s. rewrite Hd, Hd'.
  destruct (cell_in_bounds (Z.of_nat N) p q r s); [|ring].
  rewrite !factored_value_flat. unfold factored_flat.
  apply sum_range_ext_scale; intros mu _.
  apply sum_range_ext_scale; intros nu _.
  apply sum_range_ext_scale; intros rho _.
  apply sum_range_ext_scale; intros sigma _.
  simpl. ring.
Qed.

End LoopProperties.

Lemma transform_loops_no_basis_function_witness :
  Slow.transform_integrals_slow 0 g2e_ex coeff_ex
    = Ok (zeros4 (shape4 g2e_ex)) /\
  Slow.transform_integrals 0 g2e_ex coeff_ex = Ok (zeros4 (shape4 g2e_ex)).
Proof.
  apply (transform_loops_no_basis_function (SC := Qc_Scalar) 0 g2e_ex coeff_ex).
  lia.
Defined.

Lemma transform_loops_leading_block_witness :
  exists t t',
    Slow.transform_integrals_slow 2 g2e_wide coeff_ex = Ok t /\
    Slow.transform_integrals 2 g2e_wide coeff_ex = Ok t' /\
    forall p q r s,
      ~ (0 <= p < 2 /\ 0 <= q < 2 /\ 0 <= r < 2 /\ 0 <= s < 2) ->
      data4 t p q r s = F0 /\ data4 t' p q r s = F0.
Proof.
  apply (transform_loops_leading_block (SC := Qc_Scalar) 2 g2e_wide coeff_ex
           3 3 3 3 2 2); try reflexivity; lia.
Defined.

Lemma transform_integrals_closed_form_witness :
  exists gmo,
    Slow.transform_integrals (Z.of_nat 2) g2e_ex coeff_ex = Ok gmo /\
    shape4 gmo = (2%nat, 2%nat, 2%nat, 2%nat) /\
    forall p q r s,
      0 <= p < Z.of_nat 2 -> 0 <= q < Z.of_nat 2 ->
      0 <= r < Z.of_nat 2 -> 0 <= s < Z.of_nat 2 ->
      data4 gmo p q r s = factored_flat (Z.of_nat 2) g2e_ex coeff_ex p q r s.
Proof.
  apply (transform_integrals_closed_form (SC := Qc_Scalar) 2 g2e_ex coeff_ex);
    reflexivity.
Defined.

Lemma transform_integrals_last_two_symmetric_witness :
  exists gmo,
    Slow.transform_integrals (Z.of_nat 2) g2e_ex coeff_ex = Ok gmo /\
    forall p q r s, data4 gmo p q r s = data4 gmo p q s r.
Proof.
  apply (transform_integrals_last_two_symmetric (SC := Qc_Scalar) 2
           g2e_ex coeff_ex); reflexivity.
Defined.

Lemma transform_integrals_scale_witness :
  exists gmo gmo',
    Slow.transform_integrals (Z.of_nat 2) g2e_ex coeff_ex = Ok gmo /\
    Slow.transform_integrals (Z.of_nat 2) (scale4 (qz 3) g2e_ex) coeff_ex
      = Ok gmo' /\
    forall p q r s, data4 gmo' p q r s = Fmul (qz 3) (data4 gmo p q r s).
Proof.
  apply (transform_integrals_scale (SC := Qc_Scalar) 2 (qz 3) g2e_ex coeff_ex);
    reflexivity.
Defined.

Lemma transform_integrals_identity_witness :
  exists gmo,
    Slow.transform_integrals (Z.of_nat 2) g2e_ex (eye 2) = Ok gmo /\
    shape4 gmo = shape4 g2e_ex /\
    forall p q r s,
      0 <= p < Z.of_nat 2 -> 0 <= q < Z.of_nat 2 ->
      0 <= r < Z.of_nat 2 -> 0 <= s < Z.of_nat 2 ->
      data4 gmo p q r s =
        if r =? s
        then sum_range 0 (Z.of_nat 2) (fun sigma => data4 g2e_ex p q r sigma)
        else F0.
Proof.
  apply (transform_integrals_identity (SC := Qc_Scalar) 2 g2e_ex). reflexivity.
Defined.

Lemma transform_integrals_einsum_slow_result_witness :
  exists g2e_mo,
    Slow.transform_integrals_einsum g2e_ex g2e_other coeff_ex = Ok g2e_mo /\
    shape4 g2e_mo = (2%nat, 2%nat, 2%nat, 2%nat) /\
    forall p q r s,
      data4 g2e_mo p q r s = contraction 2 g2e_ex coeff_ex p q r s.
Proof.
  apply (transform_integrals_einsum_slow_result (SC := Qc_Scalar) 2
           g2e_ex g2e_other coeff_ex); reflexivity.
Defined.

Lemma transform_integrals_einsum_fast_result_witness :
  exists g2e_mo,
    Fast.transform_integrals_einsum g2e_ex g2e_other coeff_ex = Ok g2e_mo /\
    shape4 g2e_mo = (2%nat, 2%nat, 2%nat, 2%nat) /\
    forall p q r s,
      data4 g2e_mo p q r s = last_axis_value 2 g2e_ex coeff_ex p q r s.
Proof.
  apply (transform_integrals_einsum_fast_result (SC := Qc_Scalar) 2
           g2e_ex g2e_other coeff_ex); reflexivity.
Defined.

(** * Further properties of the energy *)

Section EnergyProperties.
Context {SC : Scalar}.
Add Field scalar_field_energy_props : Ffield.

Local Open Scope F_scope.

Lemma getitem1_ok_inv (t : ndarray1) (i : Z) (v : F) :
  (0 <= i)%Z -> getitem1 t i = Ok v -> (i < Z.of_nat (shape1 t))%Z.
Proof.
  intros Hi. unfold getitem1.
  destruct (Z_lt_le_dec i (Z.of_nat (shape1 t))) as [H|H]; [auto|].
  rewrite (norm_index_above _ _ H). discriminate.
Qed.

(** The energy loops return as soon as the indices they use are within the
    axes: the occupied ones on axes 0 and 2, the virtual ones on axes 1 and
    3 and in [orb_e]. *)
Lemma compute_mp2_energy_run_fits (num_bf nocc : Z) (g2e_mo : ndarray4)
    (orb_e : ndarray1) (ehf : F) (n0 n1 n2 n3 : nat) :
  shape4 g2e_mo = (n0, n1, n2, n3) ->
  (nocc <= Z.of_nat n0)%Z -> (num_bf <= Z.of_nat n1)%Z ->
  (nocc <= Z.of_nat n2)%Z -> (num_bf <= Z.of_nat n3)%Z ->
  (num_bf <= Z.of_nat (shape1 orb_e))%Z ->
  Slow.compute_mp2_energy_run num_bf nocc g2e_mo orb_e ehf
  = Ok (mp2_xsum num_bf nocc g2e_mo orb_e,
        (mp2_iterations num_bf nocc * 7)%nat).
Proof.
  intros Hg H0 H1 H2 H3 He.
  unfold Slow.compute_mp2_energy_run.
  assert (adds
    (for_each (range 0 nocc) (fun i =>
     for_each (range 0 nocc) (fun j =>
     for_each (range nocc num_bf) (fun a =>
     for_each (range nocc num_bf) (fun b '(E, n) =>
       '(x, n) <- read4 g2e_mo i a j b n ;;
       '(y, n) <- read4 g2e_mo i a j b n ;;
       '(z, n) <- read4 g2e_mo i b j a n ;;
       '(ei, n) <- read1 orb_e i n ;;
       '(ej, n) <- read1 orb_e j n ;;
       '(ea, n) <- read1 orb_e a n ;;
       '(eb, n) <- read1 orb_e b n ;;
       Ok (xadd E (xdiv (x * (two * y - z)) (ei + ej - ea - eb)), n))))))
    (mp2_xsum num_bf nocc g2e_mo orb_e)
    (Z.to_nat (nocc - 0) * (Z.to_nat (nocc - 0)
      * (Z.to_nat (num_bf - nocc) * (Z.to_nat (num_bf - nocc) * 7))))) as Hadds.
  { unfold mp2_xsum.
    apply for_range_adds; intros i Hi.
    apply for_range_adds; intros j Hj.
    apply for_range_adds; intros a Ha.
    apply for_range_adds; intros b Hb.
    intros E n. unfold read4, read1.
    rewrite (getitem4_in g2e_mo n0 n1 n2 n3 i a j b Hg) by lia.
    rewrite (getitem4_in g2e_mo n0 n1 n2 n3 i b j a Hg) by lia.
    rewrite !getitem1_in by lia.
    simpl. unfold mp2_xterm. do 2 f_equal. }
  rewrite Hadds. rewrite xadd_zero_l. f_equal. f_equal.
  unfold mp2_iterations. rewrite Z.sub_0_r. lia.
Qed.

(** If the energy loops return with an occupied and a virtual orbital, the
    last occupied and the last virtual index were within the axes. *)
Lemma compute_mp2_energy_run_ok_inv (num_bf nocc : Z) (g2e_mo : ndarray4)
    (orb_e : ndarray1) (ehf : F) (n0 n1 n2 n3 : nat) (r : xval * nat) :
  shape4 g2e_mo = (n0, n1, n2, n3) ->
  (0 < nocc < num_bf)%Z ->
  Slow.compute_mp2_energy_run num_bf nocc g2e_mo orb_e ehf = Ok r ->
  (nocc <= Z.of_nat n0)%Z /\ (num_bf <= Z.of_nat n1)%Z /\
  (nocc <= Z.of_nat n2)%Z /\ (num_bf <= Z.of_nat n3)%Z /\
  (num_bf <= Z.of_nat (shape1 orb_e))%Z.
Proof.
  intros Hg Hn H. unfold Slow.compute_mp2_energy_run in H.
  assert (In (nocc - 1)%Z (range 0 nocc)) as Hi by (apply in_range; lia).
  assert (In (num_bf - 1)%Z (range nocc num_bf)) as Ha by (apply in_range; lia).
  destruct (for_each_ok_inv _ _ _ _ H _ Hi) as [?st [?st H1]].
  destruct (for_each_ok_inv _ _ _ _ H1 _ Hi) as [?st [?st H2]].
  destruct (for_each_ok_inv _ _ _ _ H2 _ Ha) as [?st [?st H3]].
  destruct (for_each_ok_inv _ _ _ _ H3 _ Ha) as [[E n] [?st H4]].
  unfold read4, read1 in H4.
  destruct (getitem4 g2e_mo (nocc - 1) (num_bf - 1) (nocc - 1) (num_bf - 1))
    as [x|] eqn:Eg; [|discriminate].
  simpl in H4.
  destruct (getitem1 orb_e (nocc - 1)) as [ei|] eqn:E1; [|discriminate].
  simpl in H4.
  destruct (getitem1 orb_e (num_bf - 1)) as [ea|] eqn:E2; [|discriminate].
  apply (getitem4_ok_inv g2e_mo n0 n1 n2 n3) in Eg; try assumption; try lia.
  apply getitem1_ok_inv in E2; lia.
Qed.

(** X13.  With at least one occupied and one virtual orbital
    ([0 < nocc < num_bf]) [compute_mp2_energy] returns exactly when [nocc]
    is within axes 0 and 2 of [g2e_mo] and [num_bf] is within axes 1 and 3
    and within [orb_e]; otherwise it raises [IndexError]. *)
Theorem compute_mp2_energy_index_error (num_bf nocc : Z) (g2e_mo : ndarray4)
    (orb_e : ndarray1) (ehf : F) (n0 n1 n2 n3 : nat) :
  shape4 g2e_mo = (n0, n1, n2, n3) ->
  (0 < nocc < num_bf)%Z ->
  ((nocc <= Z.of_nat n0)%Z /\ (num_bf <= Z.of_nat n1)%Z /\
   (nocc <= Z.of_nat n2)%Z /\ (num_bf <= Z.of_nat n3)%Z /\
   (num_bf <= Z.of_nat (shape1 orb_e))%Z ->
   Slow.compute_mp2_energy num_bf nocc g2e_mo orb_e ehf
     = Ok (mp2_xsum num_bf nocc g2e_mo orb_e) /\
   Fast.compute_mp2_energy num_bf nocc g2e_mo orb_e ehf
     = Ok (mp2_xsum num_bf nocc g2e_mo orb_e)) /\
  (~ ((nocc <= Z.of_nat n0)%Z /\ (num_bf <= Z.of_nat n1)%Z /\
      (nocc <= Z.of_nat n2)%Z /\ (num_bf <= Z.of_nat n3)%Z /\
      (num_bf <= Z.of_nat (shape1 orb_e))%Z) ->
   Slow.compute_mp2_energy num_bf nocc g2e_mo orb_e ehf = Raise IndexError /\
   Fast.compute_mp2_energy num_bf nocc g2e_mo orb_e ehf = Raise IndexError).
Proof.
  intros Hg Hn.
  change (@Fast.compute_mp2_energy SC) with (@Slow.compute_mp2_energy SC).
  unfold Slow.compute_mp2_energy. split.
  - intros [H0 [H1 [H2 [H3 He]]]].
    rewrite (compute_mp2_energy_run_fits num_bf nocc g2e_mo orb_e ehf
               n0 n1 n2 n3 Hg H0 H1 H2 H3 He).
    split; reflexivity.
  - intros Hnot.
    destruct (Slow.compute_mp2_energy_run num_bf nocc g2e_mo orb_e ehf)
      as [r|e] eqn:E.
    + exfalso. apply Hnot.
      eapply compute_mp2_energy_run_ok_inv; eassumption.
    + apply compute_mp2_energy_run_raises in E. subst e. split; reflexivity.
Qed.

Lemma xscale_xadd (k : F) (a b : xval) :
  xscale k (xadd a b) = xadd (xscale k a) (xscale k b).
Proof. destruct a, b; simpl; try reflexivity. f_equal. ring. Qed.

Lemma xsum_range_scale (lo hi : Z) (k : F) (f f' : Z -> xval) :
  (forall x, (lo <= x < hi)%Z -> f' x = xscale k (f x)) ->
  xsum_range lo hi f' = xscale k (xsum_range lo hi f).
Proof.
  intros H. unfold xsum_range.
  assert (forall x, In x (range lo hi) -> f' x = xscale k (f x)) as H'.
  { intros x Hx. apply H. now apply in_range. }
  clear H. induction (range lo hi) as [|x xs IH]; simpl.
  - f_equal. ring.
  - rewrite xscale_xadd. rewrite H' by (now left). f_equal.
    apply IH. intros y Hy. apply H'. now right.
Qed.

Lemma mp2_xterm_scale (c : F) (g2e_mo : ndarray4) (orb_e : ndarray1)
    (i j a b : Z) :
  mp2_xterm (scale4 c g2e_mo) orb_e i j a b
  = xscale (c * c) (mp2_xterm g2e_mo orb_e i j a b).
Proof.
  unfold mp2_xterm, xdiv. cbn [data4 scale4].
  destruct (Feq_dec _ F0) as [E|E]; simpl; [reflexivity|].
  f_equal. unfold two. field. exact E.
Qed.

(** X15.  The energy is homogeneous of degree two in the integrals: for
    the array [c * g2e_mo] the function returns [c * c] times the energy of
    [g2e_mo] (and a non-finite value where that one is not finite). *)
Theorem compute_mp2_energy_scale (num_bf nocc : Z) (c : F) (g2e_mo : ndarray4)
    (orb_e : ndarray1) (ehf : F) (n0 n1 n2 n3 : nat) :
  shape4 g2e_mo = (n0, n1, n2, n3) ->
  (nocc <= Z.of_nat n0)%Z -> (num_bf <= Z.of_nat n1)%Z ->
  (nocc <= Z.of_nat n2)%Z -> (num_bf <= Z.of_nat n3)%Z ->
  (num_bf <= Z.of_nat (shape1 orb_e))%Z ->
  exists E,
    Slow.compute_mp2_energy num_bf nocc g2e_mo orb_e ehf = Ok E /\
    Slow.compute_mp2_energy num_bf nocc (scale4 c g2e_mo) orb_e ehf
      = Ok (xscale (c * c) E) /\
    Fast.compute_mp2_energy num_bf nocc g2e_mo orb_e ehf = Ok E /\
    Fast.compute_mp2_energy num_bf nocc (scale4 c g2e_mo) orb_e ehf
      = Ok (xscale (c * c) E).
Proof.
  intros Hg H0 H1 H2 H3 He.
  change (@Fast.compute_mp2_energy SC) with (@Slow.compute_mp2_energy SC).
  exists (mp2_xsum num_bf nocc g2e_mo orb_e).
  unfold Slow.compute_mp2_energy.
  rewrite (compute_mp2_energy_run_fits num_bf nocc g2e_mo orb_e ehf
             n0 n1 n2 n3 Hg H0 H1 H2 H3 He).
  rewrite (compute_mp2_energy_run_fits num_bf nocc (scale4 c g2e_mo) orb_e ehf
             n0 n1 n2 n3 Hg H0 H1 H2 H3 He).
  simpl bind.
  assert (mp2_xsum num_bf nocc (scale4 c g2e_mo) orb_e
          = xscale (c * c) (mp2_xsum num_bf nocc g2e_mo orb_e)) as ->.
  { unfold mp2_xsum.
    apply xsum_range_scale; intros i _. apply xsum_range_scale; intros j _.
    apply xsum_range_scale; intros a _. apply xsum_range_scale; intros b _.
    apply mp2_xterm_scale. }
  repeat split.
Qed.

End EnergyProperties.

Lemma compute_mp2_energy_index_error_witness :
  (1 <= Z.of_nat 2 /\ 2 <= Z.of_nat 2 /\ 1 <= Z.of_nat 2 /\ 2 <= Z.of_nat 2 /\
   2 <= Z.of_nat (shape1 orb_ex) ->
   Slow.compute_mp2_energy 2 1 g2e_ex orb_ex (qz 0)
     = Ok (mp2_xsum 2 1 g2e_ex orb_ex) /\
   Fast.compute_mp2_energy 2 1 g2e_ex orb_ex (qz 0)
     = Ok (mp2_xsum 2 1 g2e_ex orb_ex)) /\
  (~ (1 <= Z.of_nat 2 /\ 2 <= Z.of_nat 2 /\ 1 <= Z.of_nat 2 /\ 2 <= Z.of_nat 2 /\
      2 <= Z.of_nat (shape1 orb_ex)) ->
   Slow.compute_mp2_energy 2 1 g2e_ex orb_ex (qz 0) = Raise IndexError /\
   Fast.compute_mp2_energy 2 1 g2e_ex orb_ex (qz 0) = Raise IndexError).
Proof.
  apply (compute_mp2_energy_index_error (SC := Qc_Scalar) 2 1 g2e_ex orb_ex
           (qz 0) 2 2 2 2).
  - reflexivity.
  - lia.
Defined.

Lemma compute_mp2_energy_scale_witness :
  exists E,
    Slow.compute_mp2_energy 2 1 g2e_ex orb_ex (qz 0) = Ok E /\
    Slow.compute_mp2_energy 2 1 (scale4 (qz 3) g2e_ex) orb_ex (qz 0)
      = Ok (xscale (Fmul (qz 3) (qz 3)) E) /\
    Fast.compute_mp2_energy 2 1 g2e_ex orb_ex (qz 0) = Ok E /\
    Fast.compute_mp2_energy 2 1 (scale4 (qz 3) g2e_ex) orb_ex (qz 0)
      = Ok (xscale (Fmul (qz 3) (qz 3)) E).
Proof.
  apply (compute_mp2_energy_scale (SC := Qc_Scalar) 2 1 (qz 3) g2e_ex orb_ex
           (qz 0) 2 2 2 2); try reflexivity; simpl; lia.
Defined.

(** * The scripts: transformation, then energy *)

Section ScriptProperties.
Context {SC : Scalar}.
Add Field scalar_field_scripts : Ffield.

Local Open Scope F_scope.





End ScriptProperties.


